(** * NEST models: [stdp_pl_synapse_hom] and [iaf_chs_2007]

    A shallow embedding of the two model headers

      - [models/stdp_pl_connection_hom.h]  (the plastic synapse), and
      - [models/iaf_chs_2007.h]            (the spike-response neuron),

    followed by the properties of the model description that can be stated
    on them.

    Numbers.  [double_t] is read as a real number ([R]): the statements
    on [Module STDPPL] are those of the exact arithmetic the model
    description is written in.  Where rounding is the point the code is
    embedded a second time on IEEE binary64 values: [depress_] in
    [Module Binary64], and the loop of [send] with its literal test
    [minus_dt == 0], and [send] around it, in [Module Double].  [long_t],
    [port] and [rport] are integers ([Z]); [ulong_t] is a natural number
    below [2^64] ([N], wrap-around written out).

    Effects.  [send] mutates the connection, fills in the event and
    delivers it; the embedding threads the connection and the event and
    records every write and the delivery in program order in a list of
    [effect]s.  [set_status] runs in a state-and-exception monad in which,
    as in C++, the writes made before a [throw] survive it. *)

From Stdlib Require Import String Bool ZArith NArith Reals Lra Lia List.
From Stdlib Require Import Floats.
Import ListNotations.

Open Scope R_scope.

(* ================================================================= *)
(** * Collaborators that the headers only use *)

(** A node is referred to through a pointer ([Node*], [Node&]); the
    pointee is looked up in a store at the time of the call. *)
Definition node_ref := nat.

(** One entry of the post-synaptic spike history ([histentry], declared in
    the archiver): the time of the spike and the value of the decaying
    trace at that time.  [send] reads [t_] only. *)
Record histentry := mk_histentry {
  t_ : R;
  Kminus_ : R
}.

(** The part of [Archiving_Node] that a connection calls.
    [get_history t1 t2] stands for the entries between the two iterators
    [start] and [finish] that the C++ function hands back, oldest first;
    [get_K_value t] is the decaying trace at [t]. *)
Record Archiving_Node := mk_Archiving_Node {
  get_history : R -> R -> list histentry;
  get_K_value : R -> R
}.

(** The fields of an [Event] that [send] reads or sets. *)
Record Event := mk_Event {
  stamp_ms : R;                  (* e.get_stamp().get_ms() *)
  sender : option node_ref;
  receiver : option node_ref;
  weight : R;
  delay : Z;
  rport : Z
}.

(** What may be thrown.  [BadProperty] and [UnknownReceptorType] are the
    exceptions named in the headers; [NoiseExhausted] is the failure of the
    model description's [step]. *)
Inductive exn :=
| BadProperty (msg : string)
| UnknownReceptorType (receptor_type : Z) (name : string)
| NoiseExhausted (cursor : N).

(* ================================================================= *)
(** * [stdp_pl_connection_hom.h] *)

Module STDPPL.

(** [std::pow] where it has a real value.  The C library fixes
    [pow(x, 0) = 1] for every [x] and [pow(0, y) = 0] for [y > 0]; for
    [x > 0] it is [exp (y * ln x)]; for [x < 0] and an integer [y] it is the
    integer power.  In the two cases that are left [std::pow] has no real
    value, and the [0] below stands for none: a negative base with an
    exponent that is not an integer (NaN), and [pow(0, y)] with [y < 0]
    (infinite).  What is proved of weights below keeps away from them. *)
Definition std_pow (x y : R) : R :=
  if Req_dec_T y 0 then 1
  else if Req_dec_T x 0 then 0
  else if Rlt_dec 0 x then Rpower x y
  else if Req_dec_T (IZR (Int_part y)) y then powerRZ x (Int_part y)
  else 0.

(** [class STDPPLHomCommonProperties]. *)
Record STDPPLHomCommonProperties := mk_cp {
  tau_plus_ : R;
  lambda_ : R;
  alpha_ : R;
  mu_ : R
}.

(** [class STDPPLConnectionHom : public ConnectionHetWD].  [target_],
    [weight_], [delay_] (in steps) and [rport_] are the members inherited
    from the base class that [send] uses; [Kplus_] is the member the class
    adds. *)
Record STDPPLConnectionHom := mk_conn {
  target_ : node_ref;
  weight_ : R;
  delay_ : Z;
  rport_ : Z;
  Kplus_ : R
}.

Definition set_weight_ (c : STDPPLConnectionHom) (w : R) : STDPPLConnectionHom :=
  {| target_ := target_ c; weight_ := w; delay_ := delay_ c;
     rport_ := rport_ c; Kplus_ := Kplus_ c |}.

Definition set_Kplus_ (c : STDPPLConnectionHom) (k : R) : STDPPLConnectionHom :=
  {| target_ := target_ c; weight_ := weight_ c; delay_ := delay_ c;
     rport_ := rport_ c; Kplus_ := k |}.

(** [facilitate_]: [w + (cp.lambda_ * std::pow(w, cp.mu_) * kplus)]. *)
Definition facilitate_ (w kplus : R) (cp : STDPPLHomCommonProperties) : R :=
  w + (lambda_ cp * std_pow w (mu_ cp) * kplus).

(** [depress_]:
    [new_w = w - (cp.lambda_ * cp.alpha_ * w * kminus);]
    [return new_w > 0.0 ? new_w : 0.0;] *)
Definition depress_ (w kminus : R) (cp : STDPPLHomCommonProperties) : R :=
  let new_w := w - (lambda_ cp * alpha_ cp * w * kminus) in
  if Rgt_dec new_w 0 then new_w else 0.

(** What [send] does to the world, one entry per write or call. *)
Inductive effect :=
| Facilitate (w : R)      (* weight_ = facilitate_(...)  in the loop  *)
| Depress (w : R)         (* weight_ = depress_(...)                  *)
| Deliver (e : Event)     (* e()                                      *)
| UpdateKplus (k : R).    (* Kplus_ = ...                             *)

Definition is_Facilitate (x : effect) : bool :=
  match x with Facilitate _ => true | _ => false end.

Definition is_Deliver (x : effect) : bool :=
  match x with Deliver _ => true | _ => false end.

Definition is_UpdateKplus (x : effect) : bool :=
  match x with UpdateKplus _ => true | _ => false end.

(** The place of the first entry of a kind in a log. *)
Fixpoint index_of (p : effect -> bool) (l : list effect) : option nat :=
  match l with
  | [] => None
  | x :: rest => if p x then Some 0%nat else option_map S (index_of p rest)
  end.

(** Both kinds occur, and the first [p] comes before the first [q]. *)
Definition precedes (p q : effect -> bool) (l : list effect) : Prop :=
  match index_of p l, index_of q l with
  | Some i, Some j => (i < j)%nat
  | _, _ => False
  end.

(** The lag of a history entry, [minus_dt] in the loop of [send], in exact
    arithmetic; [Double.minus_dt_of] is the lag as the doubles give it. *)
Definition minus_dt_of (t_lastspike dendritic_delay : R) (h : histentry) : R :=
  t_lastspike - (t_ h + dendritic_delay).

(** The entries whose lag is not zero: those the loop pairs when it
    computes exactly.  ([Double.paired] has the test of the code.) *)
Definition paired (t_lastspike dendritic_delay : R) (h : histentry) : bool :=
  if Req_dec_T (minus_dt_of t_lastspike dendritic_delay h) 0 then false else true.

Section Send.

(** [Time(Time::step(d)).get_ms()]: the length in ms of [d] steps.  The
    [Time] class is not part of the two headers. *)
Variable get_ms : Z -> R.

(** One turn of the [while (start != finish)] loop, on the entry [h] that
    [start] points to.  The lag and its test are those of exact arithmetic;
    [Double.loop_body] has them as the doubles give them. *)
Definition loop_body (t_lastspike dendritic_delay : R)
    (cp : STDPPLHomCommonProperties)
    (st : STDPPLConnectionHom * list effect) (h : histentry)
    : STDPPLConnectionHom * list effect :=
  let minus_dt := t_lastspike - (t_ h + dendritic_delay) in
  if Req_dec_T minus_dt 0 then st
  else
    let w := facilitate_ (weight_ (fst st))
               (Kplus_ (fst st) * exp (minus_dt / tau_plus_ cp)) cp in
    (set_weight_ (fst st) w, snd st ++ [Facilitate w]).

(** The result of a call: the connection and the event as [send] leaves
    them, and what it did, in order. *)
Record sent := mk_sent {
  conn : STDPPLConnectionHom;
  event : Event;
  log : list effect
}.

(** The first part of [send]: the history query and the [while] loop over
    what it returns. *)
Definition replay (nodes : node_ref -> Archiving_Node) (e : Event)
    (t_lastspike : R) (cp : STDPPLHomCommonProperties)
    (c : STDPPLConnectionHom) : STDPPLConnectionHom * list effect :=
  let t_spike := stamp_ms e in
  let dendritic_delay := get_ms (delay_ c) in
  let target := nodes (target_ c) in
  (* get spike history in relevant range (t1, t2] from post-synaptic neuron *)
  let history := get_history target (t_lastspike - dendritic_delay)
                                    (t_spike - dendritic_delay) in
  (* facilitation due to post-synaptic spikes since last pre-synaptic spike *)
  fold_left (loop_body t_lastspike dendritic_delay cp) history (c, []).

(** The four setters before the delivery: the receiver is the target, and
    the weight, the delay and the port are those of the connection. *)
Definition address (e : Event) (c : STDPPLConnectionHom) : Event :=
  {| stamp_ms := stamp_ms e; sender := sender e;
     receiver := Some (target_ c); weight := weight_ c;
     delay := delay_ c; rport := rport_ c |}.

(** [STDPPLConnectionHom::send]. *)
Definition send (nodes : node_ref -> Archiving_Node) (e : Event)
    (t_lastspike : R) (cp : STDPPLHomCommonProperties)
    (c : STDPPLConnectionHom) : sent :=
  let t_spike := stamp_ms e in
  let dendritic_delay := get_ms (delay_ c) in
  let target := nodes (target_ c) in
  let st := replay nodes e t_lastspike cp c in
  (* depression due to new pre-synaptic spike *)
  let w := depress_ (weight_ (fst st))
             (get_K_value target (t_spike - dendritic_delay)) cp in
  let c2 := set_weight_ (fst st) w in
  let e' := address e c2 in                                   (* ...; e(); *)
  let k := Kplus_ c2 * exp ((t_lastspike - t_spike) / tau_plus_ cp) + 1 in
  {| conn := set_Kplus_ c2 k;
     event := e';
     log := snd st ++ [Depress w; Deliver e'; UpdateKplus k] |}.

(** The same operation with its steps in the order in which the model
    description lists them: replay, depression, trace update, and the
    delivery last.  It is here to be compared with [send]. *)
Definition send_as_described (nodes : node_ref -> Archiving_Node) (e : Event)
    (t_lastspike : R) (cp : STDPPLHomCommonProperties)
    (c : STDPPLConnectionHom) : sent :=
  let t_spike := stamp_ms e in
  let dendritic_delay := get_ms (delay_ c) in
  let target := nodes (target_ c) in
  let st := replay nodes e t_lastspike cp c in
  let w := depress_ (weight_ (fst st))
             (get_K_value target (t_spike - dendritic_delay)) cp in
  let c2 := set_weight_ (fst st) w in
  let k := Kplus_ c2 * exp ((t_lastspike - t_spike) / tau_plus_ cp) + 1 in
  let c3 := set_Kplus_ c2 k in
  let e' := address e c3 in
  {| conn := c3;
     event := e';
     log := snd st ++ [Depress w; UpdateKplus k; Deliver e'] |}.

(** One delivery of a pre-synaptic spike through the connection: the store
    of nodes as it is at that time, the event, and the arguments the
    connector passes. *)
Record call := mk_call {
  c_nodes : node_ref -> Archiving_Node;
  c_event : Event;
  c_t_lastspike : R;
  c_cp : STDPPLHomCommonProperties
}.

Definition send_call (c : STDPPLConnectionHom) (k : call) : STDPPLConnectionHom :=
  conn (send (c_nodes k) (c_event k) (c_t_lastspike k) (c_cp k) c).

(** Any number of [send] calls, one after the other. *)
Definition send_all (calls : list call) (c : STDPPLConnectionHom)
    : STDPPLConnectionHom :=
  fold_left send_call calls c.

End Send.

End STDPPL.

(* ================================================================= *)
(** * [iaf_chs_2007.h] *)

(** Code that may throw and that writes to an object of type [S]: the
    object comes back in either case, with the writes made so far. *)
Definition Exc (S A : Type) : Type := S -> (exn + A) * S.

Definition ret {S A : Type} (a : A) : Exc S A := fun s => (inr a, s).

Definition throw {S A : Type} (ex : exn) : Exc S A := fun s => (inl ex, s).

Definition bind {S A B : Type} (m : Exc S A) (k : A -> Exc S B) : Exc S B :=
  fun s =>
    match m s with
    | (inr a, s') => k a s'
    | (inl ex, s') => (inl ex, s')
    end.

Definition gets {S A : Type} (f : S -> A) : Exc S A := fun s => (inr (f s), s).

Definition modify {S : Type} (f : S -> S) : Exc S unit := fun s => (inr tt, f s).

Notation "x <- m ;; k" := (bind m (fun x => k))
  (at level 61, m at next level, right associativity).
Notation "m ;;; k" := (bind m (fun _ => k))
  (at level 61, right associativity).

Module IAF.

(** [struct State_]. *)
Record State_ := mk_State {
  i_syn_ex_ : R;   (* postsynaptic current for exc. inputs, variable 1 *)
  V_syn_ : R;      (* psp waveform, variable 2 *)
  V_spike_ : R;    (* post spike reset waveform, variable 3 *)
  V_m_ : R;        (* membrane potential, variable 4 *)
  position_ : N    (* ulong_t *)
}.

(** [struct Parameters_]. *)
Record Parameters_ := mk_Parameters {
  tau_epsp_ : R;
  tau_reset_ : R;
  E_L_ : R;
  U_th_ : R;
  U_epsp_ : R;
  U_reset_ : R;
  C_ : R;
  U_noise_ : R;
  noise_ : list R
}.

(** [struct Variables_]: the time evolution operator.  (The random deviate
    generator is left out.) *)
Record Variables_ := mk_Variables {
  P20_ : R;
  P11ex_ : R;
  P21ex_ : R;
  P22_ : R;
  P30_ : R
}.

Definition set_position_ (s : State_) (n : N) : State_ :=
  {| i_syn_ex_ := i_syn_ex_ s; V_syn_ := V_syn_ s; V_spike_ := V_spike_ s;
     V_m_ := V_m_ s; position_ := n |}.

Section Neuron.

(** The members of the parent class [Archiving_Node], which the header
    does not show. *)
Variable Archiving : Type.

(** [class iaf_chs_2007 : public Archiving_Node]: [P_], [S_], [V_], the
    parent's members and the model name that [get_name()] returns.  The
    ring buffers and the logger of [B_] take no part in what follows. *)
Record iaf_chs_2007 := mk_neuron {
  P_ : Parameters_;
  S_ : State_;
  V_ : Variables_;
  parent : Archiving;
  get_name : string
}.

Definition set_P_ (p : Parameters_) (n : iaf_chs_2007) : iaf_chs_2007 :=
  {| P_ := p; S_ := S_ n; V_ := V_ n; parent := parent n; get_name := get_name n |}.

Definition set_S_ (s : State_) (n : iaf_chs_2007) : iaf_chs_2007 :=
  {| P_ := P_ n; S_ := s; V_ := V_ n; parent := parent n; get_name := get_name n |}.

Definition set_parent (a : Archiving) (n : iaf_chs_2007) : iaf_chs_2007 :=
  {| P_ := P_ n; S_ := S_ n; V_ := V_ n; parent := a; get_name := get_name n |}.

(** [get_V_m_]: the real membrane potential. *)
Definition get_V_m_ (n : iaf_chs_2007) : R := V_m_ (S_ n) + E_L_ (P_ n).

(** [connect_sender(SpikeEvent&, port receptor_type)]. *)
Definition connect_sender (n : iaf_chs_2007) (receptor_type : Z) : exn + Z :=
  if negb (receptor_type =? 0)%Z
  then inl (UnknownReceptorType receptor_type (get_name n))
  else inr 0%Z.

(** [check_connection(Connection& c, port receptor_type)], for a
    connection whose [check_event(SpikeEvent&)] is the empty function of
    [STDPPLConnectionHom] and whose target is the neuron [target]:
    [return c.get_target()->connect_sender(e, receptor_type);] *)
Definition check_connection (target : iaf_chs_2007) (receptor_type : Z)
    : exn + Z :=
  connect_sender target receptor_type.

(** ** [set_status] *)

Section SetStatus.

Variable DictionaryDatum : Type.

(** The three setters that [set_status] calls are defined outside the
    header.  [Parameters_::set(d, s)] writes to the parameter object it is
    called on and, through the reference [s], to a state object;
    [State_::set(d)] writes to the state object it is called on;
    [Archiving_Node::set_status(d)] writes to the parent's members.  Each
    may throw. *)
Variable Parameters_set : DictionaryDatum -> Exc (Parameters_ * State_) unit.
Variable State_set : DictionaryDatum -> Exc State_ unit.
Variable Archiving_Node_set_status : DictionaryDatum -> Exc Archiving unit.

(** [ptmp.set(d, S_)]: the call on the local copy [ptmp], with the member
    [S_] itself as the state argument.  What the callee wrote to [S_] stays
    there also when it throws; [ptmp] is then lost with the stack frame. *)
Definition ptmp_set (d : DictionaryDatum) (ptmp : Parameters_)
    : Exc iaf_chs_2007 Parameters_ :=
  fun n =>
    match Parameters_set d (ptmp, S_ n) with
    | (inr _, (ptmp', s')) => (inr ptmp', set_S_ s' n)
    | (inl ex, (_, s')) => (inl ex, set_S_ s' n)
    end.

(** [stmp.set(d)]: the call on the local copy [stmp]. *)
Definition stmp_set (d : DictionaryDatum) (stmp : State_)
    : Exc iaf_chs_2007 State_ :=
  fun n =>
    match State_set d stmp with
    | (inr _, stmp') => (inr stmp', n)
    | (inl ex, _) => (inl ex, n)
    end.

(** [Archiving_Node::set_status(d)] on this object. *)
Definition parent_set_status (d : DictionaryDatum) : Exc iaf_chs_2007 unit :=
  fun n =>
    let (r, a) := Archiving_Node_set_status d (parent n) in
    (r, set_parent a n).

(** [iaf_chs_2007::set_status]. *)
Definition set_status (d : DictionaryDatum) : Exc iaf_chs_2007 unit :=
  ptmp <- gets P_ ;;               (* Parameters_ ptmp = P_; *)
  ptmp <- ptmp_set d ptmp ;;       (* ptmp.set(d, S_);       *)
  stmp <- gets S_ ;;               (* State_ stmp = S_;      *)
  stmp <- stmp_set d stmp ;;       (* stmp.set(d);           *)
  parent_set_status d ;;;          (* Archiving_Node::set_status(d); *)
  modify (set_P_ ptmp) ;;;         (* P_ = ptmp;             *)
  modify (set_S_ stmp).            (* S_ = stmp;             *)

End SetStatus.

(** ** [update], one step *)

Section Step.

(** The linear part of the step: from the coefficients, the state before
    the step and the buffered current to the four components after it.
    The model description fixes its shape, not its formulas. *)
Variable propagate : Variables_ -> State_ -> R -> R * R * R * R.

(** The fixed contribution a spike adds to the spike waveform. *)
Variable reset_contribution : Parameters_ -> R.

(** Modelled from the spec: the step once the noise value is known.
    Propagate, add the buffered spike input to the synaptic current and the
    scaled noise to the membrane potential, move the cursor on by one, test
    the threshold. *)
Definition advance (p : Parameters_) (v : Variables_) (s : State_)
    (buffered_synaptic_input buffered_current noise_value : R)
    : State_ * bool :=
  let '(i, vsyn, vspike, vm) := propagate v s buffered_current in
  let vm' := vm + U_noise_ p * noise_value in
  let spiked := if Rge_dec vm' (U_th_ p) then true else false in
  ({| i_syn_ex_ := i + buffered_synaptic_input;
      V_syn_ := vsyn;
      V_spike_ := if spiked then vspike + reset_contribution p else vspike;
      V_m_ := vm';
      position_ := ((position_ s + 1) mod 2 ^ 64)%N |},
   spiked).

(** Modelled from the spec: the body of [iaf_chs_2007::update], which the
    header declares and does not define.  The noise value is read at the
    cursor [position_]; when no value remains the step fails with
    [NoiseExhausted] and leaves the state as it was. *)
Definition step (p : Parameters_) (v : Variables_) (s : State_)
    (buffered_synaptic_input buffered_current : R) : exn + State_ * bool :=
  match nth_error (noise_ p) (N.to_nat (position_ s)) with
  | Some noise_value =>
      inr (advance p v s buffered_synaptic_input buffered_current noise_value)
  | None => inl (NoiseExhausted (position_ s))
  end.

(** Modelled from the spec: the step driver, one [step] per pair of
    buffered inputs.  It stops at the first step that fails. *)
Fixpoint run_steps (p : Parameters_) (v : Variables_)
    (inputs : list (R * R)) (s : State_) : exn + State_ * list bool :=
  match inputs with
  | [] => inr (s, [])
  | (syn, cur) :: rest =>
      match step p v s syn cur with
      | inl ex => inl ex
      | inr (s', spiked) =>
          match run_steps p v rest s' with
          | inl ex => inl ex
          | inr (s'', flags) => inr (s'', spiked :: flags)
          end
      end
  end.

End Step.

End Neuron.

Arguments P_ {Archiving} _.
Arguments S_ {Archiving} _.
Arguments V_ {Archiving} _.
Arguments parent {Archiving} _.
Arguments get_name {Archiving} _.
Arguments connect_sender {Archiving} _ _.
Arguments check_connection {Archiving} _ _.
Arguments set_status {Archiving DictionaryDatum} _ _ _ _ _.

End IAF.

(* ================================================================= *)
(** * Setting up a connection *)

Module Setup.

Import STDPPL.

Section CheckConnection.

Variable get_ms : Z -> R.
Variable Archiving : Type.

(** What [check_connection] writes to: the connection, and the times
    registered with the archiver of the receiver
    ([register_stdp_connection]), latest first. *)
Record setup := mk_setup {
  connection : STDPPLConnectionHom;
  registered : list R
}.

(** The base class' [check_connection], defined outside the header. *)
Variable ConnectionHetWD_check_connection :
  IAF.iaf_chs_2007 Archiving -> node_ref -> IAF.iaf_chs_2007 Archiving ->
  Z -> R -> Exc STDPPLConnectionHom unit.

Definition base_check_connection (s : IAF.iaf_chs_2007 Archiving)
    (r_ref : node_ref) (r : IAF.iaf_chs_2007 Archiving)
    (receptor_type : Z) (t_lastspike : R) : Exc setup unit :=
  fun st =>
    let (res, c) := ConnectionHetWD_check_connection s r_ref r receptor_type
                      t_lastspike (connection st) in
    (res, {| connection := c; registered := registered st |}).

Definition register_stdp_connection (t : R) : Exc setup unit :=
  modify (fun st => {| connection := connection st;
                       registered := t :: registered st |}).

(** [STDPPLConnectionHom::check_connection]. *)
Definition check_connection (s : IAF.iaf_chs_2007 Archiving)
    (r_ref : node_ref) (r : IAF.iaf_chs_2007 Archiving)
    (receptor_type : Z) (t_lastspike : R) : Exc setup unit :=
  base_check_connection s r_ref r receptor_type t_lastspike ;;;
  d <- gets (fun st => get_ms (delay_ (connection st))) ;;
  register_stdp_connection (t_lastspike - d).

End CheckConnection.

(** Modelled from the spec: [ConnectionHetWD::check_connection], defined in
    the base class and missing here.  It has the sender check, through
    [Node::check_connection], that the receiver accepts the event type and
    the receptor, and keeps the receiver and the port that was confirmed. *)
Definition ConnectionHetWD_check_connection {Archiving : Type}
    (s : IAF.iaf_chs_2007 Archiving) (r_ref : node_ref)
    (r : IAF.iaf_chs_2007 Archiving) (receptor_type : Z) (t_lastspike : R)
    : Exc STDPPLConnectionHom unit :=
  fun c =>
    match IAF.check_connection r receptor_type with
    | inl ex => (inl ex, c)
    | inr p =>
        (inr tt, {| target_ := r_ref; weight_ := weight_ c; delay_ := delay_ c;
                    rport_ := p; Kplus_ := Kplus_ c |})
    end.

End Setup.

(* ================================================================= *)
(** * A status dictionary and the setters behind [set_status] *)

Module Status.

Import IAF.

(** The entries of a status dictionary that reach the neuron: the
    parameters the header documents, and [tau_minus], the time constant of
    the archiver in the parent class.  An absent entry is [None]. *)
Record Dictionary := mk_Dictionary {
  tau_epsp : option R;
  tau_reset : option R;
  U_epsp : option R;
  U_reset : option R;
  U_noise : option R;
  noise : option (list R);
  tau_minus : option R
}.

(** [updateValue]: the entry if there is one, the old value otherwise. *)
Definition updateValue {A : Type} (entry : option A) (old : A) : A :=
  match entry with
  | Some v => v
  | None => old
  end.

(** Modelled from the spec: [Parameters_::set(d, s)], declared in the
    header and defined outside it.  It takes over the entries of the
    dictionary, rejects a time constant that is not positive, and, when the
    noise signal was replaced, sets the cursor of [s] back to 0. *)
Definition Parameters_set (d : Dictionary) : Exc (Parameters_ * State_) unit :=
  fun ps =>
    let p := fst ps in
    let s := snd ps in
    let p' := {| tau_epsp_ := updateValue (tau_epsp d) (tau_epsp_ p);
                 tau_reset_ := updateValue (tau_reset d) (tau_reset_ p);
                 E_L_ := E_L_ p;
                 U_th_ := U_th_ p;
                 U_epsp_ := updateValue (U_epsp d) (U_epsp_ p);
                 U_reset_ := updateValue (U_reset d) (U_reset_ p);
                 C_ := C_ p;
                 U_noise_ := updateValue (U_noise d) (U_noise_ p);
                 noise_ := updateValue (noise d) (noise_ p) |} in
    if Rle_dec (tau_epsp_ p') 0 then
      (inl (BadProperty "All time constants must be strictly positive."), (p', s))
    else if Rle_dec (tau_reset_ p') 0 then
      (inl (BadProperty "All time constants must be strictly positive."), (p', s))
    else
      (inr tt, (p', match noise d with
                    | Some _ => set_position_ s 0
                    | None => s
                    end)).

(** Modelled from the spec: [State_::set(d)].  The model description names
    no entry that sets a state variable. *)
Definition State_set (d : Dictionary) : Exc State_ unit := ret tt.

(** Modelled from the spec: [Archiving_Node::set_status(d)], reduced to
    the one member [tau_minus]; a time constant that is not positive is
    rejected. *)
Definition Archiving_Node_set_status (d : Dictionary) : Exc R unit :=
  match tau_minus d with
  | None => ret tt
  | Some t =>
      if Rle_dec t 0
      then throw (BadProperty "tau_minus must be strictly positive.")
      else modify (fun _ => t)
  end.

End Status.

(* ================================================================= *)
(** * [depress_] on IEEE binary64 *)

Module Binary64.

Open Scope float_scope.

(** The body of [depress_] with the operations of [double]. *)
Definition depress_ (lambda_ alpha_ w kminus : float) : float :=
  let new_w := w - (lambda_ * alpha_ * w * kminus) in
  if 0 <? new_w then new_w else 0.

(** The doubles nearest to 0.1 and to 0.8. *)
Definition d0_1 : float := 0x1.999999999999ap-4.
Definition d0_8 : float := 0x1.999999999999ap-1.

Close Scope float_scope.

End Binary64.

(* ================================================================= *)
(** * The synapse on IEEE binary64 *)

Module Double.

Open Scope float_scope.

(** The records of [Module STDPPL] with [double_t] as a double. *)
Record STDPPLHomCommonProperties := mk_cp {
  tau_plus_ : float;
  lambda_ : float;
  alpha_ : float;
  mu_ : float
}.

Record STDPPLConnectionHom := mk_conn {
  target_ : node_ref;
  weight_ : float;
  delay_ : Z;
  rport_ : Z;
  Kplus_ : float
}.

Definition set_weight_ (c : STDPPLConnectionHom) (w : float)
    : STDPPLConnectionHom :=
  {| target_ := target_ c; weight_ := w; delay_ := delay_ c;
     rport_ := rport_ c; Kplus_ := Kplus_ c |}.

Definition set_Kplus_ (c : STDPPLConnectionHom) (k : float)
    : STDPPLConnectionHom :=
  {| target_ := target_ c; weight_ := weight_ c; delay_ := delay_ c;
     rport_ := rport_ c; Kplus_ := k |}.

Record histentry := mk_histentry {
  t_ : float;
  Kminus_ : float
}.

Record Archiving_Node := mk_Archiving_Node {
  get_history : float -> float -> list histentry;
  get_K_value : float -> float
}.

Record Event := mk_Event {
  stamp_ms : float;
  sender : option node_ref;
  receiver : option node_ref;
  weight : float;
  delay : Z;
  rport : Z
}.

Inductive effect :=
| Facilitate (w : float)
| Depress (w : float)
| Deliver (e : Event)
| UpdateKplus (k : float).

(** The lag of an entry as the loop computes it:
    [t_lastspike - (start->t_ + dendritic_delay)], two rounded
    operations. *)
Definition minus_dt_of (t_lastspike dendritic_delay : float) (h : histentry)
    : float :=
  t_lastspike - (t_ h + dendritic_delay).

(** The entries that the test [minus_dt == 0] lets through. *)
Definition paired (t_lastspike dendritic_delay : float) (h : histentry) : bool :=
  negb (minus_dt_of t_lastspike dendritic_delay h =? 0).

Section Libm.

(** [std::exp] and [std::pow] of the C library, and
    [Time(Time::step(d)).get_ms()]. *)
Variable std_exp : float -> float.
Variable std_pow : float -> float -> float.
Variable get_ms : Z -> float.

(** [facilitate_]: [w + (cp.lambda_ * std::pow(w, cp.mu_) * kplus)]. *)
Definition facilitate_ (w kplus : float) (cp : STDPPLHomCommonProperties)
    : float :=
  w + (lambda_ cp * std_pow w (mu_ cp) * kplus).

(** [depress_], the body of [Binary64.depress_]. *)
Definition depress_ (w kminus : float) (cp : STDPPLHomCommonProperties)
    : float :=
  Binary64.depress_ (lambda_ cp) (alpha_ cp) w kminus.

(** One turn of the [while (start != finish)] loop:
    [minus_dt = t_lastspike - (start->t_ + dendritic_delay); ++start;]
    [if (minus_dt == 0) continue;]
    [weight_ = facilitate_(weight_, Kplus_ * std::exp(minus_dt / cp.tau_plus_), cp);] *)
Definition loop_body (t_lastspike dendritic_delay : float)
    (cp : STDPPLHomCommonProperties)
    (st : STDPPLConnectionHom * list effect) (h : histentry)
    : STDPPLConnectionHom * list effect :=
  let minus_dt := t_lastspike - (t_ h + dendritic_delay) in
  if minus_dt =? 0 then st
  else
    let w := facilitate_ (weight_ (fst st))
               (Kplus_ (fst st) * std_exp (minus_dt / tau_plus_ cp)) cp in
    (set_weight_ (fst st) w, snd st ++ [Facilitate w]).

Record sent := mk_sent {
  conn : STDPPLConnectionHom;
  event : Event;
  log : list effect
}.

(** The history query and the loop. *)
Definition replay (nodes : node_ref -> Archiving_Node) (e : Event)
    (t_lastspike : float) (cp : STDPPLHomCommonProperties)
    (c : STDPPLConnectionHom) : STDPPLConnectionHom * list effect :=
  let t_spike := stamp_ms e in
  let dendritic_delay := get_ms (delay_ c) in
  let target := nodes (target_ c) in
  let history := get_history target (t_lastspike - dendritic_delay)
                                    (t_spike - dendritic_delay) in
  fold_left (loop_body t_lastspike dendritic_delay cp) history (c, []).

Definition address (e : Event) (c : STDPPLConnectionHom) : Event :=
  {| stamp_ms := stamp_ms e; sender := sender e;
     receiver := Some (target_ c); weight := weight_ c;
     delay := delay_ c; rport := rport_ c |}.

(** [STDPPLConnectionHom::send]. *)
Definition send (nodes : node_ref -> Archiving_Node) (e : Event)
    (t_lastspike : float) (cp : STDPPLHomCommonProperties)
    (c : STDPPLConnectionHom) : sent :=
  let t_spike := stamp_ms e in
  let dendritic_delay := get_ms (delay_ c) in
  let target := nodes (target_ c) in
  let st := replay nodes e t_lastspike cp c in
  let w := depress_ (weight_ (fst st))
             (get_K_value target (t_spike - dendritic_delay)) cp in
  let c2 := set_weight_ (fst st) w in
  let e' := address e c2 in
  let k := Kplus_ c2 * std_exp ((t_lastspike - t_spike) / tau_plus_ cp) + 1 in
  {| conn := set_Kplus_ c2 k;
     event := e';
     log := snd st ++ [Depress w; Deliver e'; UpdateKplus k] |}.

End Libm.

(** The doubles nearest to 0.2, 0.3 and 0.4, and 0.5. *)
Definition d0_2 : float := 0x1.999999999999ap-3.
Definition d0_3 : float := 0x1.3333333333333p-2.
Definition d0_4 : float := 0x1.999999999999ap-2.
Definition d0_5 : float := 0x1p-1.

Close Scope float_scope.

End Double.

(* ================================================================= *)
(** * Concrete inputs *)

Module Examples.

Import STDPPL.

(** A resolution of 0.1 ms. *)
Definition get_ms (d : Z) : R := IZR d / 10.

Definition cp1 : STDPPLHomCommonProperties :=
  {| tau_plus_ := 20; lambda_ := 0.1; alpha_ := 1; mu_ := 0.4 |}.

(** The same with a weight exponent of zero. *)
Definition cp0 : STDPPLHomCommonProperties :=
  {| tau_plus_ := 20; lambda_ := 0.1; alpha_ := 1; mu_ := 0 |}.

(** A connection to node 7 with weight 1, a delay of 10 steps (1 ms) and a
    trace of 0. *)
Definition c1 : STDPPLConnectionHom :=
  {| target_ := 7%nat; weight_ := 1; delay_ := 10; rport_ := 0; Kplus_ := 0 |}.

(** The same with weight 0 and a trace of 1. *)
Definition c0 : STDPPLConnectionHom :=
  {| target_ := 7%nat; weight_ := 0; delay_ := 10; rport_ := 0; Kplus_ := 1 |}.

(** A spike of node 3 stamped 12 ms. *)
Definition e12 : Event :=
  {| stamp_ms := 12; sender := Some 3%nat; receiver := None; weight := 0;
     delay := 0; rport := 0 |}.

(** A target that has not spiked since the last pre-synaptic spike and
    whose trace is 2. *)
Definition quiet : node_ref -> Archiving_Node :=
  fun _ => {| get_history := fun _ _ => []; get_K_value := fun _ => 2 |}.

(** Two post-synaptic spikes, at 9 ms and at 9.5 ms. *)
Definition h9 : histentry := {| t_ := 9; Kminus_ := 1 |}.
Definition h9_5 : histentry := {| t_ := 9.5; Kminus_ := 1.9 |}.

Definition spiking : node_ref -> Archiving_Node :=
  fun _ => {| get_history := fun _ _ => [h9; h9_5];
              get_K_value := fun _ => 2 |}.

Definition calls2 : list call :=
  [ {| c_nodes := quiet; c_event := e12; c_t_lastspike := 10; c_cp := cp1 |};
    {| c_nodes := spiking; c_event := e12; c_t_lastspike := 10; c_cp := cp1 |} ].

(** A neuron: five noise values, of which three are used up. *)
Definition p5 : IAF.Parameters_ :=
  {| IAF.tau_epsp_ := 8.5; IAF.tau_reset_ := 15.4; IAF.E_L_ := 0;
     IAF.U_th_ := 1; IAF.U_epsp_ := 0.77; IAF.U_reset_ := 2.31;
     IAF.C_ := 1; IAF.U_noise_ := 0.1;
     IAF.noise_ := [0.3; -0.2; 0.1; 0.4; -0.5] |}.

Definition s3 : IAF.State_ :=
  {| IAF.i_syn_ex_ := 0; IAF.V_syn_ := 0; IAF.V_spike_ := 0; IAF.V_m_ := 0;
     IAF.position_ := 3 |}.

(** The same state with the cursor at the start. *)
Definition s0 : IAF.State_ :=
  {| IAF.i_syn_ex_ := 0; IAF.V_syn_ := 0; IAF.V_spike_ := 0; IAF.V_m_ := 0;
     IAF.position_ := 0 |}.

Definition v1 : IAF.Variables_ :=
  {| IAF.P20_ := 0; IAF.P11ex_ := 0.5; IAF.P21ex_ := 0.25; IAF.P22_ := 0.5;
     IAF.P30_ := 0.5 |}.

(** The parent's member is [tau_minus], here 20 ms. *)
Definition n3 : IAF.iaf_chs_2007 R :=
  {| IAF.P_ := p5; IAF.S_ := s3; IAF.V_ := v1; IAF.parent := 20;
     IAF.get_name := "iaf_chs_2007" |}.

(** A dictionary with a new noise signal of two values and a [tau_minus]
    that the parent class rejects. *)
Definition d_rejected : Status.Dictionary :=
  {| Status.tau_epsp := None; Status.tau_reset := None; Status.U_epsp := None;
     Status.U_reset := None; Status.U_noise := None;
     Status.noise := Some [0.5; 0.5];
     Status.tau_minus := Some (-1) |}.

(** One linear propagator, and a reset by the magnitude [U_reset_]. *)
Definition propagate (v : IAF.Variables_) (s : IAF.State_) (current : R)
    : R * R * R * R :=
  let vsyn := IAF.V_syn_ s * IAF.P22_ v + IAF.i_syn_ex_ s * IAF.P21ex_ v in
  let vspike := IAF.V_spike_ s * IAF.P30_ v in
  (IAF.i_syn_ex_ s * IAF.P11ex_ v, vsyn, vspike,
   vsyn + vspike + IAF.P20_ v * current).

Definition reset_contribution (p : IAF.Parameters_) : R := - IAF.U_reset_ p.

(** Buffered inputs for five steps. *)
Definition inputs5 : list (R * R) := [(0, 0); (1, 0); (0, 0); (2, 0); (0, 0)].

End Examples.

(* ================================================================= *)
(** * Spike trains *)

Module Series.

Import STDPPL.

(** What spikes at the given times have left of their unit increments at
    time [t]: the sum of [exp ((t_i - t) / tau)]. *)
Fixpoint decayed_sum (tau t : R) (times : list R) : R :=
  match times with
  | [] => 0
  | t_i :: rest => exp ((t_i - t) / tau) + decayed_sum tau t rest
  end.

(** A sequence of calls as a connector makes them: each call is handed the
    stamp of the event before it as [t_lastspike], the first one [t0]; the
    time constant does not change on the way. *)
Fixpoint chained (t0 tau : R) (calls : list call) : Prop :=
  match calls with
  | [] => True
  | k :: rest =>
      c_t_lastspike k = t0 /\ tau_plus_ (c_cp k) = tau /\
      chained (stamp_ms (c_event k)) tau rest
  end.

(** The stamp of the last event of a sequence of calls, [t0] if there is
    none. *)
Definition last_stamp (t0 : R) (calls : list call) : R :=
  fold_left (fun _ k => stamp_ms (c_event k)) calls t0.

(** Calls that respect time: a positive time constant, and no event
    stamped before the previous one. *)
Definition causal (k : call) : Prop :=
  0 < tau_plus_ (c_cp k) /\ c_t_lastspike k <= stamp_ms (c_event k).

End Series.

Module Logging.

Section Logger.

Variable Archiving : Type.

(** The logger [B_.logger_] and the request, both declared outside the
    header; [connect_logging_device dlr] stands for
    [B_.logger_.connect_logging_device(dlr, recordablesMap_)], which writes
    to the logger and returns a port. *)
Variables (Logger DataLoggingRequest : Type).
Variable connect_logging_device : DataLoggingRequest -> Exc Logger Z.

(** [connect_sender(DataLoggingRequest& dlr, port receptor_type)]. *)
Definition connect_sender (n : IAF.iaf_chs_2007 Archiving)
    (dlr : DataLoggingRequest) (receptor_type : Z) : Exc Logger Z :=
  if negb (receptor_type =? 0)%Z
  then throw (UnknownReceptorType receptor_type (IAF.get_name n))
  else connect_logging_device dlr.

End Logger.

End Logging.

Module MoreExamples.

Import STDPPL.

(** A spike of node 3 stamped 15 ms. *)
Definition e15 : Event :=
  {| stamp_ms := 15; sender := Some 3%nat; receiver := None; weight := 0;
     delay := 0; rport := 0 |}.

(** Two deliveries in a row, at 12 ms and at 15 ms, the last spike before
    them at 10 ms. *)
Definition train : list call :=
  [ {| c_nodes := Examples.quiet; c_event := Examples.e12;
       c_t_lastspike := 10; c_cp := Examples.cp1 |};
    {| c_nodes := Examples.spiking; c_event := e15;
       c_t_lastspike := 12; c_cp := Examples.cp1 |} ].

(** The history of [Examples.spiking] with other trace values. *)
Definition spiking' : node_ref -> Archiving_Node :=
  fun _ => {| get_history := fun _ _ =>
                [ {| t_ := 9; Kminus_ := 0 |}; {| t_ := 9.5; Kminus_ := 7 |} ];
              get_K_value := fun _ => 2 |}.

(** A strong depression: learning rate 0.5, asymmetry 1, against a trace
    of 2. *)
Definition cp_strong : STDPPLHomCommonProperties :=
  {| tau_plus_ := 20; lambda_ := 0.5; alpha_ := 1; mu_ := 0.4 |}.



(** A dictionary without a noise entry and with a [tau_epsp] that is
    rejected. *)
Definition d_bad_tau : Status.Dictionary :=
  {| Status.tau_epsp := Some (-3); Status.tau_reset := None;
     Status.U_epsp := None; Status.U_reset := None; Status.U_noise := None;
     Status.noise := None; Status.tau_minus := None |}.

(** A connection on doubles with weight 1, a delay of 4 steps and a
    trace of 1, at a resolution of 0.1 ms. *)
Definition c64 : Double.STDPPLConnectionHom :=
  {| Double.target_ := 7%nat; Double.weight_ := 1%float; Double.delay_ := 4;
     Double.rport_ := 0; Double.Kplus_ := 1%float |}.

Definition get_ms64 (d : Z) : float :=
  if (d =? 4)%Z then Double.d0_4 else if (d =? 2)%Z then Double.d0_2
  else 0%float.

Definition cp64 : Double.STDPPLHomCommonProperties :=
  {| Double.tau_plus_ := 20%float; Double.lambda_ := Binary64.d0_1;
     Double.alpha_ := 1%float; Double.mu_ := Double.d0_4 |}.

(** A post-synaptic spike at 0.1 ms. *)
Definition h0_1 : Double.histentry :=
  {| Double.t_ := Binary64.d0_1; Double.Kminus_ := 1%float |}.

(** A target whose queried history is that one spike and whose trace is
    2.  With a last pre-synaptic spike at 0.5 ms and a delay of 0.4 ms the
    spike lies in the queried range, whose lower end [0.5 - 0.4] is the
    double below 0.1, and its lag [0.5 - (0.1 + 0.4)] is 0. *)
Definition boundary : node_ref -> Double.Archiving_Node :=
  fun _ => {| Double.get_history := fun _ _ => [h0_1];
              Double.get_K_value := fun _ => 2%float |}.

(** A spike stamped 1 ms. *)
Definition e1_64 : Double.Event :=
  {| Double.stamp_ms := 1%float; Double.sender := Some 3%nat;
     Double.receiver := None; Double.weight := 0%float;
     Double.delay := 0; Double.rport := 0 |}.

(** Stand-ins for [std::exp] and [std::pow] where neither is called. *)
Definition uncalled_exp (x : float) : float := PrimFloat.nan.
Definition uncalled_pow (x y : float) : float := PrimFloat.nan.

End MoreExamples.

(* ================================================================= *)
(** * Properties of the synapse *)

Import STDPPL.

(** ** [std_pow], [facilitate_] and [depress_] *)

Lemma std_pow_exponent_0 (x : R) : std_pow x 0 = 1.
Proof.
  unfold std_pow. destruct (Req_dec_T 0 0) as [_ | H]; [reflexivity | now elim H].
Qed.

Lemma std_pow_base_0 (y : R) : 0 < y -> std_pow 0 y = 0.
Proof.
  intros Hy. unfold std_pow.
  destruct (Req_dec_T y 0) as [E | _]; [lra |].
  destruct (Req_dec_T 0 0) as [_ | H]; [reflexivity | now elim H].
Qed.

Lemma std_pow_positive_base (x y : R) :
  0 < x -> y <> 0 -> std_pow x y = Rpower x y.
Proof.
  intros Hx Hy. unfold std_pow.
  destruct (Req_dec_T y 0); [contradiction |].
  destruct (Req_dec_T x 0); [lra |].
  destruct (Rlt_dec 0 x); [reflexivity | contradiction].
Qed.

Lemma Int_part_IZR (n : Z) : Int_part (IZR n) = n.
Proof.
  unfold Int_part.
  assert (H : (n + 1)%Z = up (IZR n)).
  { apply tech_up; rewrite plus_IZR; lra. }
  rewrite <- H. lia.
Qed.

(** A negative base with an integer exponent: the integer power, as
    [std::pow] has it ([pow(-2, 3)] is -8). *)
Lemma std_pow_negative_base (x : R) (n : Z) :
  x < 0 -> std_pow x (IZR n) = powerRZ x n.
Proof.
  intros Hx. unfold std_pow.
  destruct (Req_dec_T (IZR n) 0) as [E | _].
  - apply eq_IZR_R0 in E. subst n. reflexivity.
  - destruct (Req_dec_T x 0); [lra |].
    destruct (Rlt_dec 0 x); [lra |].
    rewrite Int_part_IZR.
    destruct (Req_dec_T (IZR n) (IZR n)) as [_ | N];
      [reflexivity | now elim N].
Qed.

Lemma std_pow_minus_2_cubed : std_pow (-2) 3 = -8.
Proof.
  rewrite (std_pow_negative_base (-2) 3) by lra. simpl. lra.
Qed.

Lemma depress_Rmax (w kminus : R) (cp : STDPPLHomCommonProperties) :
  depress_ w kminus cp = Rmax 0 (w - lambda_ cp * alpha_ cp * w * kminus).
Proof.
  unfold depress_, Rmax.
  destruct (Rgt_dec _ 0) as [Hgt | Hngt];
    destruct (Rle_dec 0 _) as [Hle | Hnle]; lra.
Qed.

Lemma depress_nonneg (w kminus : R) (cp : STDPPLHomCommonProperties) :
  0 <= depress_ w kminus cp.
Proof. rewrite depress_Rmax. apply Rmax_l. Qed.

Lemma depress_0 (kminus : R) (cp : STDPPLHomCommonProperties) :
  depress_ 0 kminus cp = 0.
Proof.
  unfold depress_. destruct (Rgt_dec _ 0) as [Hgt | _]; lra.
Qed.

Lemma facilitate_0 (kplus : R) (cp : STDPPLHomCommonProperties) :
  0 < mu_ cp -> facilitate_ 0 kplus cp = 0.
Proof.
  intros Hmu. unfold facilitate_. rewrite (std_pow_base_0 _ Hmu). lra.
Qed.

(** ** The loop *)

Section Loop.

Variables (t_lastspike dendritic_delay : R) (cp : STDPPLHomCommonProperties).

Let body := loop_body t_lastspike dendritic_delay cp.
Let minus_dt_of := minus_dt_of t_lastspike dendritic_delay.
Let paired := paired t_lastspike dendritic_delay.

Lemma loop_body_skip st h :
  minus_dt_of h = 0 -> body st h = st.
Proof.
  unfold body, loop_body, minus_dt_of. intros E.
  destruct (Req_dec_T _ 0) as [_ | N]; [reflexivity | contradiction].
Qed.

Lemma loop_body_pair st h :
  minus_dt_of h <> 0 ->
  body st h =
    (set_weight_ (fst st)
       (facilitate_ (weight_ (fst st))
          (Kplus_ (fst st) * exp (minus_dt_of h / tau_plus_ cp)) cp),
     snd st ++ [Facilitate
       (facilitate_ (weight_ (fst st))
          (Kplus_ (fst st) * exp (minus_dt_of h / tau_plus_ cp)) cp)]).
Proof.
  unfold body, loop_body, minus_dt_of. intros N.
  destruct (Req_dec_T _ 0) as [E | _]; [contradiction | reflexivity].
Qed.

(** The loop writes to [weight_] and to nothing else. *)
Lemma loop_body_frame st h :
  target_ (fst (body st h)) = target_ (fst st) /\
  delay_ (fst (body st h)) = delay_ (fst st) /\
  rport_ (fst (body st h)) = rport_ (fst st) /\
  Kplus_ (fst (body st h)) = Kplus_ (fst st).
Proof.
  destruct (Req_dec_T (minus_dt_of h) 0) as [E | N].
  - rewrite (loop_body_skip _ _ E). auto.
  - rewrite (loop_body_pair _ _ N). simpl. auto.
Qed.

Lemma loop_frame history st :
  target_ (fst (fold_left body history st)) = target_ (fst st) /\
  delay_ (fst (fold_left body history st)) = delay_ (fst st) /\
  rport_ (fst (fold_left body history st)) = rport_ (fst st) /\
  Kplus_ (fst (fold_left body history st)) = Kplus_ (fst st).
Proof.
  revert st. induction history as [| h rest IH]; intros st; simpl.
  - auto.
  - destruct (IH (body st h)) as (Ht & Hd & Hr & Hk).
    destruct (loop_body_frame st h) as (Ht' & Hd' & Hr' & Hk').
    repeat split; congruence.
Qed.

Lemma paired_skip h : minus_dt_of h = 0 -> paired h = false.
Proof.
  intros E. unfold paired, STDPPL.paired. fold minus_dt_of.
  destruct (Req_dec_T _ 0); [reflexivity | contradiction].
Qed.

Lemma paired_pair h : minus_dt_of h <> 0 -> paired h = true.
Proof.
  intros N. unfold paired, STDPPL.paired. fold minus_dt_of.
  destruct (Req_dec_T _ 0); [contradiction | reflexivity].
Qed.

(** The log grows by one [Facilitate] for every paired entry. *)
Lemma loop_log history st :
  exists ws,
    snd (fold_left body history st) = snd st ++ map Facilitate ws /\
    length ws = length (filter paired history).
Proof.
  revert st. induction history as [| h rest IH]; intros st; simpl.
  - exists []. simpl. now rewrite app_nil_r.
  - destruct (IH (body st h)) as (ws & Hlog & Hlen).
    destruct (Req_dec_T (minus_dt_of h) 0) as [E | N].
    + rewrite (paired_skip _ E). rewrite (loop_body_skip _ _ E) in *.
      exists ws. auto.
    + rewrite (paired_pair _ N). rewrite (loop_body_pair _ _ N) in *.
      simpl in Hlog.
      exists (facilitate_ (weight_ (fst st))
                (Kplus_ (fst st) * exp (minus_dt_of h / tau_plus_ cp)) cp :: ws).
      split.
      * rewrite Hlog, <- app_assoc. reflexivity.
      * simpl. now rewrite Hlen.
Qed.

(** With a weight of zero and a positive exponent every pairing leaves
    the weight at zero. *)
Lemma loop_zero history st :
  0 < mu_ cp -> weight_ (fst st) = 0 ->
  weight_ (fst (fold_left body history st)) = 0.
Proof.
  intros Hmu. revert st. induction history as [| h rest IH]; intros st Hw; simpl.
  - exact Hw.
  - apply IH.
    destruct (Req_dec_T (minus_dt_of h) 0) as [E | N].
    + now rewrite (loop_body_skip _ _ E).
    + rewrite (loop_body_pair _ _ N). simpl. rewrite Hw.
      now apply facilitate_0.
Qed.

End Loop.

(** ** [send] *)

Section SendProperties.

Variable get_ms : Z -> R.

Lemma replay_frame nodes e t_lastspike cp c :
  target_ (fst (replay get_ms nodes e t_lastspike cp c)) = target_ c /\
  delay_ (fst (replay get_ms nodes e t_lastspike cp c)) = delay_ c /\
  rport_ (fst (replay get_ms nodes e t_lastspike cp c)) = rport_ c /\
  Kplus_ (fst (replay get_ms nodes e t_lastspike cp c)) = Kplus_ c.
Proof. unfold replay. apply (loop_frame _ _ cp _ (c, [])). Qed.

Lemma send_weight nodes e t_lastspike cp c :
  weight_ (conn (send get_ms nodes e t_lastspike cp c)) =
  depress_ (weight_ (fst (replay get_ms nodes e t_lastspike cp c)))
    (get_K_value (nodes (target_ c)) (stamp_ms e - get_ms (delay_ c))) cp.
Proof. reflexivity. Qed.

Lemma send_weight_nonneg nodes e t_lastspike cp c :
  0 <= weight_ (conn (send get_ms nodes e t_lastspike cp c)).
Proof. rewrite send_weight. apply depress_nonneg. Qed.

Lemma send_Kplus_eq nodes e t_lastspike cp c :
  Kplus_ (conn (send get_ms nodes e t_lastspike cp c)) =
  Kplus_ c * exp ((t_lastspike - stamp_ms e) / tau_plus_ cp) + 1.
Proof.
  unfold send. simpl.
  destruct (replay_frame nodes e t_lastspike cp c) as (_ & _ & _ & Hk).
  now rewrite Hk.
Qed.

(** C1.  A synapse whose weight is not negative keeps a weight that is not
    negative through any number of [send] calls, whatever the common
    properties, the events and the history of the target are; and the
    weight that a [send] leaves is the maximum of 0 and the weight after
    the replay less its depression. *)
Theorem send_all_weight_nonneg (calls : list call) (c : STDPPLConnectionHom) :
  0 <= weight_ c ->
  0 <= weight_ (send_all get_ms calls c) /\
  (forall nodes e t_lastspike cp c',
     let w := weight_ (fst (replay get_ms nodes e t_lastspike cp c')) in
     let kminus := get_K_value (nodes (target_ c'))
                     (stamp_ms e - get_ms (delay_ c')) in
     weight_ (conn (send get_ms nodes e t_lastspike cp c')) =
       Rmax 0 (w - lambda_ cp * alpha_ cp * w * kminus)) /\
  (forall w kminus cp, 0 <= depress_ w kminus cp).
Proof.
  intros Hw. split; [| split].
  - unfold send_all. revert c Hw.
    induction calls as [| k rest IH]; intros c Hw; simpl.
    + exact Hw.
    + apply IH. unfold send_call. apply send_weight_nonneg.
  - intros. rewrite send_weight. apply depress_Rmax.
  - intros. apply depress_nonneg.
Qed.

(** C5.  A [send] call leaves the trace [Kplus_] at its old value times
    [exp ((t_lastspike - t_spike) / tau_plus)] plus 1; and a trace that is
    not negative stays so, through one call (where it ends at 1 or more)
    and through any number of calls. *)
Theorem send_Kplus nodes e t_lastspike cp c :
  Kplus_ (conn (send get_ms nodes e t_lastspike cp c)) =
    Kplus_ c * exp ((t_lastspike - stamp_ms e) / tau_plus_ cp) + 1 /\
  (0 <= Kplus_ c ->
   1 <= Kplus_ (conn (send get_ms nodes e t_lastspike cp c)) /\
   forall calls, 0 <= Kplus_ (send_all get_ms calls c)).
Proof.
  split; [apply send_Kplus_eq |].
  intros Hk. split.
  - rewrite send_Kplus_eq.
    pose proof (exp_pos ((t_lastspike - stamp_ms e) / tau_plus_ cp)) as He.
    nra.
  - intros calls. unfold send_all. revert c Hk.
    induction calls as [| k rest IH]; intros c Hk; simpl.
    + exact Hk.
    + apply IH. unfold send_call. rewrite send_Kplus_eq.
      pose proof (exp_pos ((c_t_lastspike k - stamp_ms (c_event k))
                           / tau_plus_ (c_cp k))) as He.
      nra.
Qed.

End SendProperties.

Lemma send_all_weight_nonneg_witness :
  0 <= weight_ (send_all Examples.get_ms Examples.calls2 Examples.c1).
Proof.
  apply (send_all_weight_nonneg Examples.get_ms Examples.calls2 Examples.c1).
  simpl. lra.
Defined.

Lemma send_Kplus_witness :
  1 <= Kplus_ (conn (send Examples.get_ms Examples.quiet Examples.e12 10
                       Examples.cp1 Examples.c1)).
Proof.
  apply (send_Kplus Examples.get_ms Examples.quiet Examples.e12 10
           Examples.cp1 Examples.c1).
  simpl. lra.
Defined.

Section Depression.

Variable get_ms : Z -> R.

(** C2.  The weight that [send] leaves is the maximum of 0 and
    [w - lambda * alpha * w * trace_value], where [w] is the weight before
    the depression step (after the replay) and [trace_value] is the trace of
    the target at [t_spike] less the dendritic delay; the depression step
    is the only one at that point of the log.  For a weight of 1, a learning
    rate of 0.1, an asymmetry of 1 and a trace value of 2 the result is
    0.8, in the reals and also on binary64 doubles. *)
Theorem send_depression nodes e t_lastspike cp c :
  let w := weight_ (fst (replay get_ms nodes e t_lastspike cp c)) in
  let trace_value :=
    get_K_value (nodes (target_ c)) (stamp_ms e - get_ms (delay_ c)) in
  weight_ (conn (send get_ms nodes e t_lastspike cp c)) =
    Rmax 0 (w - lambda_ cp * alpha_ cp * w * trace_value) /\
  In (Depress (Rmax 0 (w - lambda_ cp * alpha_ cp * w * trace_value)))
     (log (send get_ms nodes e t_lastspike cp c)) /\
  (forall tau mu,
     depress_ 1 2 {| tau_plus_ := tau; lambda_ := 0.1; alpha_ := 1; mu_ := mu |}
     = 0.8) /\
  weight_ (conn (send Examples.get_ms Examples.quiet Examples.e12 10
                   Examples.cp1 Examples.c1)) = 0.8 /\
  Binary64.depress_ Binary64.d0_1 1 1 2 = Binary64.d0_8.
Proof.
  intros w trace_value.
  assert (Hex : forall tau mu,
     depress_ 1 2 {| tau_plus_ := tau; lambda_ := 0.1; alpha_ := 1; mu_ := mu |}
     = 0.8).
  { intros. unfold depress_. simpl.
    destruct (Rgt_dec _ 0) as [_ | N]; lra. }
  split; [| split; [| split; [| split]]].
  - rewrite send_weight. apply depress_Rmax.
  - unfold send. simpl. apply in_or_app. right. left.
    f_equal. apply depress_Rmax.
  - exact Hex.
  - rewrite send_weight. simpl. apply Hex.
  - reflexivity.
Qed.

End Depression.

(** ** The order of the log *)

Lemma index_of_app_skip (p : effect -> bool) (l rest : list effect) :
  forallb (fun x => negb (p x)) l = true ->
  index_of p (l ++ rest) = option_map (Nat.add (length l)) (index_of p rest).
Proof.
  induction l as [| x l IH]; simpl; intros H.
  - destruct (index_of p rest); reflexivity.
  - apply andb_true_iff in H. destruct H as [Hx Hl].
    apply negb_true_iff in Hx. rewrite Hx, (IH Hl).
    destruct (index_of p rest); reflexivity.
Qed.

Lemma facilitations_skip (p : effect -> bool) (ws : list R) :
  (forall w, p (Facilitate w) = false) ->
  forallb (fun x => negb (p x)) (map Facilitate ws) = true.
Proof.
  intros Hp. induction ws as [| w ws IH]; simpl; [reflexivity |].
  now rewrite Hp, IH.
Qed.

Section Pairing.

Variable get_ms : Z -> R.

Lemma replay_log nodes e t_lastspike cp c :
  exists ws,
    snd (replay get_ms nodes e t_lastspike cp c) = map Facilitate ws /\
    length ws =
      length (filter (paired t_lastspike (get_ms (delay_ c)))
                (get_history (nodes (target_ c))
                   (t_lastspike - get_ms (delay_ c))
                   (stamp_ms e - get_ms (delay_ c)))).
Proof.
  unfold replay.
  destruct (loop_log t_lastspike (get_ms (delay_ c)) cp
              (get_history (nodes (target_ c))
                 (t_lastspike - get_ms (delay_ c))
                 (stamp_ms e - get_ms (delay_ c))) (c, [])) as (ws & Hlog & Hlen).
  exists ws. split; [exact Hlog | exact Hlen].
Qed.

(** C4, as the code has it.  The log of a [send] is: the writes of the
    replay, one per entry with a lag other than 0; the depression; the
    delivery of the event, which carries the weight just written, the
    delay and the port of the connection and the target as receiver; and
    only then the update of the trace.  The delay and the port of the
    connection stay as they were.  The connection and the event end up as
    they would with the trace updated before the delivery. *)
Theorem send_order nodes e t_lastspike cp c :
  let s := send get_ms nodes e t_lastspike cp c in
  (exists ws,
     log s = map Facilitate ws ++
             [Depress (weight_ (conn s)); Deliver (event s);
              UpdateKplus (Kplus_ (conn s))] /\
     length ws =
       length (filter (paired t_lastspike (get_ms (delay_ c)))
                 (get_history (nodes (target_ c))
                    (t_lastspike - get_ms (delay_ c))
                    (stamp_ms e - get_ms (delay_ c))))) /\
  precedes is_Deliver is_UpdateKplus (log s) /\
  weight (event s) = weight_ (conn s) /\
  delay (event s) = delay_ c /\
  rport (event s) = rport_ c /\
  receiver (event s) = Some (target_ c) /\
  delay_ (conn s) = delay_ c /\
  rport_ (conn s) = rport_ c /\
  conn (send_as_described get_ms nodes e t_lastspike cp c) = conn s /\
  event (send_as_described get_ms nodes e t_lastspike cp c) = event s.
Proof.
  intros s.
  destruct (replay_log nodes e t_lastspike cp c) as (ws & Hlog & Hlen).
  destruct (replay_frame get_ms nodes e t_lastspike cp c) as (Ht & Hd & Hr & Hk).
  assert (Hs : log s = map Facilitate ws ++
             [Depress (weight_ (conn s)); Deliver (event s);
              UpdateKplus (Kplus_ (conn s))]).
  { unfold s, send. simpl. now rewrite Hlog. }
  split; [exists ws; split; [exact Hs | exact Hlen] |].
  split.
  { unfold precedes. rewrite Hs.
    rewrite !index_of_app_skip by (apply facilitations_skip; reflexivity).
    simpl. lia. }
  unfold s, send, send_as_described, address. simpl.
  repeat split; congruence.
Qed.

End Pairing.

(** C4, as it is written.  In the log of a [send] the update of the trace
    does not come before the delivery: with no post-synaptic spike to
    replay the log is the depression, the delivery, the update. *)
Lemma send_order_counterexample :
  ~ precedes is_UpdateKplus is_Deliver
      (log (send Examples.get_ms Examples.quiet Examples.e12 10
              Examples.cp1 Examples.c1)).
Proof.
  unfold precedes, send, replay. simpl. lia.
Qed.

(** ** The weight exponent *)

(** C8.  With a weight exponent of 0 a pairing adds
    [lambda * Kplus * exp (Delta_t / tau_plus)] to the weight, the same
    amount for every weight; so does the turn of the loop for an entry
    with a lag other than 0. *)
Theorem facilitate_exponent_0 (cp : STDPPLHomCommonProperties)
    (w Kplus Delta_t : R) :
  mu_ cp = 0 ->
  facilitate_ w (Kplus * exp (Delta_t / tau_plus_ cp)) cp =
    w + lambda_ cp * Kplus * exp (Delta_t / tau_plus_ cp) /\
  (forall w',
     facilitate_ w' (Kplus * exp (Delta_t / tau_plus_ cp)) cp - w' =
     facilitate_ w (Kplus * exp (Delta_t / tau_plus_ cp)) cp - w) /\
  (forall t_lastspike dendritic_delay st h,
     t_lastspike - (t_ h + dendritic_delay) = Delta_t ->
     Delta_t <> 0 ->
     weight_ (fst st) = w -> Kplus_ (fst st) = Kplus ->
     weight_ (fst (loop_body t_lastspike dendritic_delay cp st h)) =
       w + lambda_ cp * Kplus * exp (Delta_t / tau_plus_ cp)).
Proof.
  intros Hmu.
  assert (Hf : forall x k, facilitate_ x k cp = x + lambda_ cp * k).
  { intros x k. unfold facilitate_. rewrite Hmu, std_pow_exponent_0. lra. }
  split; [| split].
  - rewrite Hf. lra.
  - intros w'. rewrite !Hf. lra.
  - intros t_lastspike dendritic_delay st h Hdt Hnz Hw Hk.
    rewrite loop_body_pair by (unfold minus_dt_of; now rewrite Hdt).
    simpl. unfold minus_dt_of. rewrite Hdt, Hw, Hk, Hf. lra.
Qed.

Lemma facilitate_exponent_0_witness :
  facilitate_ 5 (2 * exp (-1 / tau_plus_ Examples.cp0)) Examples.cp0 =
  5 + lambda_ Examples.cp0 * 2 * exp (-1 / tau_plus_ Examples.cp0).
Proof.
  apply (facilitate_exponent_0 Examples.cp0 5 2 (-1)).
  reflexivity.
Defined.

Section ZeroWeight.

Variable get_ms : Z -> R.

(** C10.  A synapse with a weight of exactly 0 and a positive weight
    exponent has a weight of 0 after a [send], whatever the history and the
    trace of the target are: every pairing adds [lambda * 0^mu * kplus],
    which is 0, the depression of 0 is 0, and the event goes out with a
    weight of 0.  It stays at 0 through any number of calls whose exponent
    is positive. *)
Theorem send_zero_weight nodes e t_lastspike cp c :
  weight_ c = 0 -> 0 < mu_ cp ->
  weight_ (conn (send get_ms nodes e t_lastspike cp c)) = 0 /\
  weight (event (send get_ms nodes e t_lastspike cp c)) = 0 /\
  weight_ (fst (replay get_ms nodes e t_lastspike cp c)) = 0 /\
  (forall kplus, lambda_ cp * std_pow 0 (mu_ cp) * kplus = 0 /\
                 facilitate_ 0 kplus cp = 0) /\
  (forall kminus, depress_ 0 kminus cp = 0) /\
  (forall calls,
     Forall (fun k => 0 < mu_ (c_cp k)) calls ->
     weight_ (send_all get_ms calls c) = 0).
Proof.
  intros Hw Hmu.
  assert (Hone : forall nodes' e' t' cp' c',
            weight_ c' = 0 -> 0 < mu_ cp' ->
            weight_ (fst (replay get_ms nodes' e' t' cp' c')) = 0 /\
            weight_ (conn (send get_ms nodes' e' t' cp' c')) = 0).
  { intros nodes' e' t' cp' c' Hw' Hmu'.
    assert (Hr : weight_ (fst (replay get_ms nodes' e' t' cp' c')) = 0).
    { unfold replay. now apply loop_zero. }
    split; [exact Hr |].
    rewrite send_weight, Hr. apply depress_0. }
  destruct (Hone nodes e t_lastspike cp c Hw Hmu) as [Hr Hs].
  split; [exact Hs |].
  split; [exact Hs |].
  split; [exact Hr |].
  split; [| split].
  - intros kplus. split.
    + rewrite (std_pow_base_0 _ Hmu). lra.
    + now apply facilitate_0.
  - intros kminus. apply depress_0.
  - intros calls Hcalls. unfold send_all. clear Hr Hs. revert c Hw.
    induction Hcalls as [| k rest Hk _ IH]; intros c Hw; simpl.
    + exact Hw.
    + apply IH. unfold send_call. now apply Hone.
Qed.

End ZeroWeight.

Lemma send_zero_weight_witness :
  weight_ (conn (send Examples.get_ms Examples.spiking Examples.e12 10
                   Examples.cp1 Examples.c0)) = 0.
Proof.
  apply (send_zero_weight Examples.get_ms Examples.spiking Examples.e12 10
           Examples.cp1 Examples.c0).
  - reflexivity.
  - simpl. lra.
Defined.

(* ================================================================= *)
(** * Properties of the neuron *)

(** ** Receptors *)

Section Receptor.

Variable Archiving : Type.
Variable get_ms : Z -> R.

Lemma connect_sender_0 (n : IAF.iaf_chs_2007 Archiving) :
  IAF.connect_sender n 0 = inr 0%Z.
Proof. reflexivity. Qed.

Lemma connect_sender_other (n : IAF.iaf_chs_2007 Archiving) (receptor_type : Z) :
  receptor_type <> 0%Z ->
  IAF.connect_sender n receptor_type =
    inl (UnknownReceptorType receptor_type (IAF.get_name n)).
Proof.
  intros H. unfold IAF.connect_sender.
  destruct (Z.eqb_spec receptor_type 0) as [E | _]; [contradiction | reflexivity].
Qed.

(** C9.  [connect_sender] for a spike event returns port 0 for receptor 0
    and throws [UnknownReceptorType] for every other receptor, and so does
    [check_connection] of the sending neuron, which passes the question on
    to the target.  Setting up a connection through the synapse's
    [check_connection] therefore succeeds exactly for receptor 0: then the
    connection keeps port 0 and is registered with the archiver of the
    receiver; for any other receptor the exception leaves the connection
    as it was and nothing is registered.  [send] has no such failure: for a
    connection with any port it delivers the event, with that port. *)
Theorem connect_sender_receptor (s r : IAF.iaf_chs_2007 Archiving)
    (r_ref : node_ref) (receptor_type : Z) (t_lastspike : R)
    (st : Setup.setup) :
  let set_up :=
    Setup.check_connection get_ms Archiving Setup.ConnectionHetWD_check_connection
      s r_ref r receptor_type t_lastspike st in
  (IAF.connect_sender r receptor_type = inr 0%Z <-> receptor_type = 0%Z) /\
  (IAF.connect_sender r receptor_type =
     inl (UnknownReceptorType receptor_type (IAF.get_name r))
   <-> receptor_type <> 0%Z) /\
  IAF.check_connection r receptor_type = IAF.connect_sender r receptor_type /\
  (fst set_up = inr tt <-> receptor_type = 0%Z) /\
  (receptor_type = 0%Z ->
     rport_ (Setup.connection (snd set_up)) = 0%Z /\
     target_ (Setup.connection (snd set_up)) = r_ref /\
     Setup.registered (snd set_up) =
       (t_lastspike - get_ms (delay_ (Setup.connection st)))
       :: Setup.registered st) /\
  (receptor_type <> 0%Z ->
     set_up = (inl (UnknownReceptorType receptor_type (IAF.get_name r)), st)) /\
  (forall nodes e t cp c,
     In (Deliver (event (send get_ms nodes e t cp c)))
        (log (send get_ms nodes e t cp c)) /\
     rport (event (send get_ms nodes e t cp c)) = rport_ c).
Proof.
  intros set_up.
  assert (Hup0 : receptor_type = 0%Z ->
            set_up = (inr tt,
              {| Setup.connection :=
                   {| target_ := r_ref;
                      weight_ := weight_ (Setup.connection st);
                      delay_ := delay_ (Setup.connection st);
                      rport_ := 0;
                      Kplus_ := Kplus_ (Setup.connection st) |};
                 Setup.registered :=
                   (t_lastspike - get_ms (delay_ (Setup.connection st)))
                   :: Setup.registered st |})).
  { intros ->. reflexivity. }
  assert (Hup1 : receptor_type <> 0%Z ->
            set_up = (inl (UnknownReceptorType receptor_type (IAF.get_name r)), st)).
  { intros H. unfold set_up, Setup.check_connection, Setup.base_check_connection,
      Setup.ConnectionHetWD_check_connection, IAF.check_connection, bind.
    rewrite (connect_sender_other r receptor_type H).
    destruct st; reflexivity. }
  split; [| split; [| split; [| split; [| split; [| split]]]]].
  - split.
    + intros H. destruct (Z.eq_dec receptor_type 0) as [E | N]; [exact E |].
      rewrite (connect_sender_other r receptor_type N) in H. discriminate.
    + intros ->. apply connect_sender_0.
  - split.
    + intros H E. subst receptor_type. rewrite connect_sender_0 in H. discriminate.
    + apply connect_sender_other.
  - reflexivity.
  - split.
    + intros H. destruct (Z.eq_dec receptor_type 0) as [E | N]; [exact E |].
      rewrite (Hup1 N) in H. discriminate.
    + intros E. now rewrite (Hup0 E).
  - intros E. now rewrite (Hup0 E).
  - exact Hup1.
  - intros nodes e t cp c. split.
    + unfold send. simpl. apply in_or_app. right. right. left. reflexivity.
    + unfold send, address. simpl.
      now destruct (replay_frame get_ms nodes e t cp c) as (_ & _ & Hr & _).
Qed.

End Receptor.

Lemma connect_sender_receptor_witness :
  IAF.connect_sender Examples.n3 5 =
    inl (UnknownReceptorType 5 "iaf_chs_2007") /\
  IAF.connect_sender Examples.n3 0 = inr 0%Z.
Proof.
  pose proof (connect_sender_receptor R Examples.get_ms Examples.n3 Examples.n3
                7%nat 5 10
                {| Setup.connection := Examples.c1; Setup.registered := [] |})
    as (_ & [_ Hother] & _).
  pose proof (connect_sender_receptor R Examples.get_ms Examples.n3 Examples.n3
                7%nat 0 10
                {| Setup.connection := Examples.c1; Setup.registered := [] |})
    as ([_ Hzero] & _).
  split.
  - apply Hother. discriminate.
  - apply Hzero. reflexivity.
Defined.

(** ** The noise cursor *)

Section Noise.

Variable propagate : IAF.Variables_ -> IAF.State_ -> R -> R * R * R * R.
Variable reset_contribution : IAF.Parameters_ -> R.
Variables (p : IAF.Parameters_) (v : IAF.Variables_).

Local Abbreviation advance := (IAF.advance propagate reset_contribution p v).
Local Abbreviation step := (IAF.step propagate reset_contribution p v).
Local Abbreviation run_steps := (IAF.run_steps propagate reset_contribution p v).

Lemma advance_position s syn cur x :
  IAF.position_ (fst (advance s syn cur x)) =
  ((IAF.position_ s + 1) mod 2 ^ 64)%N.
Proof.
  unfold IAF.advance.
  destruct (propagate v s cur) as [[[i vsyn] vspike] vm]. reflexivity.
Qed.

Lemma step_in_range s k syn cur :
  IAF.position_ s = N.of_nat k -> (k < length (IAF.noise_ p))%nat ->
  step s syn cur = inr (advance s syn cur (nth k (IAF.noise_ p) 0)).
Proof.
  intros Hpos Hk. unfold IAF.step.
  rewrite Hpos, Nat2N.id, (nth_error_nth' _ 0 Hk). reflexivity.
Qed.

Lemma step_exhausted s k syn cur :
  IAF.position_ s = N.of_nat k -> (length (IAF.noise_ p) <= k)%nat ->
  step s syn cur = inl (NoiseExhausted (N.of_nat k)).
Proof.
  intros Hpos Hk. unfold IAF.step.
  rewrite Hpos, Nat2N.id.
  apply nth_error_None in Hk. now rewrite Hk.
Qed.

Lemma run_steps_app l1 l2 s :
  run_steps (l1 ++ l2) s =
  match run_steps l1 s with
  | inl ex => inl ex
  | inr (s', flags1) =>
      match run_steps l2 s' with
      | inl ex => inl ex
      | inr (s'', flags2) => inr (s'', flags1 ++ flags2)
      end
  end.
Proof.
  revert s. induction l1 as [| [syn cur] l1 IH]; intros s; simpl.
  - destruct (run_steps l2 s) as [ex | [s'' flags2]]; reflexivity.
  - destruct (step s syn cur) as [ex | [s' spiked]]; [reflexivity |].
    rewrite IH.
    destruct (run_steps l1 s') as [ex | [s1 flags1]]; [reflexivity |].
    destruct (run_steps l2 s1) as [ex | [s2 flags2]]; reflexivity.
Qed.

(** As long as noise values remain the steps succeed, and each moves the
    cursor on by one. *)
Lemma run_steps_in_range inputs s k :
  (N.of_nat (length (IAF.noise_ p)) < 2 ^ 64)%N ->
  IAF.position_ s = N.of_nat k ->
  (k + length inputs <= length (IAF.noise_ p))%nat ->
  exists s' flags,
    run_steps inputs s = inr (s', flags) /\
    IAF.position_ s' = N.of_nat (k + length inputs) /\
    length flags = length inputs.
Proof.
  intros Hbound. revert s k.
  induction inputs as [| [syn cur] rest IH]; intros s k Hpos Hlen; simpl in *.
  - exists s, []. rewrite Nat.add_0_r. auto.
  - rewrite (step_in_range s k syn cur Hpos) by lia.
    destruct (advance s syn cur (nth k (IAF.noise_ p) 0)) as [s1 spiked] eqn:Hadv.
    assert (Hpos1 : IAF.position_ s1 = N.of_nat (S k)).
    { pose proof (advance_position s syn cur (nth k (IAF.noise_ p) 0)) as H.
      rewrite Hadv in H. simpl in H. rewrite H, Hpos.
      rewrite N.mod_small by lia. lia. }
    destruct (IH s1 (S k) Hpos1) as (s' & flags & Hrun & Hp' & Hf); [lia |].
    rewrite Hrun.
    exists s', (spiked :: flags). repeat split.
    + rewrite Hp'. f_equal. lia.
    + simpl. now rewrite Hf.
Qed.

(** C7.  With a noise sequence of length [N] (a length that fits the
    cursor) and the cursor at 0, the first [N] steps succeed: before step
    [k + 1] the cursor is [k], the step reads the noise value of index [k]
    and leaves the cursor at [k + 1].  After [N] steps the cursor is [N],
    and one more step, whatever its inputs, fails with [NoiseExhausted]. *)
Theorem noise_cursor_exhaustion (s : IAF.State_) (inputs : list (R * R)) :
  (N.of_nat (length (IAF.noise_ p)) < 2 ^ 64)%N ->
  IAF.position_ s = 0%N ->
  length inputs = length (IAF.noise_ p) ->
  (forall k, (k < length (IAF.noise_ p))%nat ->
     exists sk flags,
       run_steps (firstn k inputs) s = inr (sk, flags) /\
       IAF.position_ sk = N.of_nat k /\
       forall syn cur,
         step sk syn cur =
           inr (advance sk syn cur (nth k (IAF.noise_ p) 0)) /\
         IAF.position_ (fst (advance sk syn cur (nth k (IAF.noise_ p) 0))) =
           N.of_nat (S k)) /\
  (exists sN flags,
     run_steps inputs s = inr (sN, flags) /\
     length flags = length (IAF.noise_ p) /\
     IAF.position_ sN = N.of_nat (length (IAF.noise_ p)) /\
     forall syn cur,
       step sN syn cur =
         inl (NoiseExhausted (N.of_nat (length (IAF.noise_ p)))) /\
       run_steps (inputs ++ [(syn, cur)]) s =
         inl (NoiseExhausted (N.of_nat (length (IAF.noise_ p))))).
Proof.
  intros Hbound Hpos Hlen. split.
  - intros k Hk.
    destruct (run_steps_in_range (firstn k inputs) s 0 Hbound Hpos)
      as (sk & flags & Hrun & Hp & _).
    { rewrite length_firstn. lia. }
    rewrite length_firstn, Nat.min_l in Hp by lia. simpl in Hp.
    exists sk, flags. split; [exact Hrun |]. split; [exact Hp |].
    intros syn cur. split.
    + now apply step_in_range.
    + rewrite advance_position, Hp. rewrite N.mod_small by lia. lia.
  - destruct (run_steps_in_range inputs s 0 Hbound Hpos)
      as (sN & flags & Hrun & Hp & Hf); [lia |].
    simpl in Hp. rewrite Hlen in Hp, Hf.
    exists sN, flags. split; [exact Hrun |]. split; [exact Hf |].
    split; [exact Hp |].
    intros syn cur.
    assert (Hstep : step sN syn cur =
              inl (NoiseExhausted (N.of_nat (length (IAF.noise_ p))))).
    { apply step_exhausted; [exact Hp | lia]. }
    split; [exact Hstep |].
    rewrite run_steps_app, Hrun. simpl. now rewrite Hstep.
Qed.

End Noise.

Lemma noise_cursor_exhaustion_witness :
  exists sN flags,
    IAF.run_steps Examples.propagate Examples.reset_contribution
      Examples.p5 Examples.v1 Examples.inputs5 Examples.s0 = inr (sN, flags) /\
    IAF.position_ sN = 5%N /\
    IAF.step Examples.propagate Examples.reset_contribution
      Examples.p5 Examples.v1 sN 0 0 = inl (NoiseExhausted 5).
Proof.
  destruct (noise_cursor_exhaustion Examples.propagate
              Examples.reset_contribution Examples.p5 Examples.v1
              Examples.s0 Examples.inputs5)
    as (_ & sN & flags & Hrun & _ & Hpos & Hfail).
  - vm_compute. reflexivity.
  - reflexivity.
  - reflexivity.
  - exists sN, flags. split; [exact Hrun |]. split; [exact Hpos |].
    apply (Hfail 0 0).
Defined.

(** ** [set_status] *)

Section SetStatusProperties.

Variables (Archiving DictionaryDatum : Type).
Variable Parameters_set :
  DictionaryDatum -> Exc (IAF.Parameters_ * IAF.State_) unit.
Variable State_set : DictionaryDatum -> Exc IAF.State_ unit.
Variable Archiving_Node_set_status : DictionaryDatum -> Exc Archiving unit.

Local Abbreviation set_status :=
  (IAF.set_status Parameters_set State_set Archiving_Node_set_status).

(** What [Parameters_::set] leaves in [S_]. *)
Local Abbreviation S_after_ptmp_set d n :=
  (snd (snd (Parameters_set d (IAF.P_ n, IAF.S_ n)))).

(** [P_] is assigned on the last line but one, and nowhere else: a call
    that throws leaves it as it was. *)
Lemma set_status_throw_P d (n n' : IAF.iaf_chs_2007 Archiving) ex :
  set_status d n = (inl ex, n') -> IAF.P_ n' = IAF.P_ n.
Proof.
  unfold IAF.set_status, bind, gets, modify, IAF.ptmp_set, IAF.stmp_set,
    IAF.parent_set_status. simpl.
  destruct (Parameters_set d (IAF.P_ n, IAF.S_ n)) as [[ex1 | []] [ptmp s1]];
    simpl.
  - intros H. inversion H. reflexivity.
  - destruct (State_set d s1) as [[ex2 | []] stmp]; simpl.
    + intros H. inversion H. reflexivity.
    + destruct (Archiving_Node_set_status d (IAF.parent n))
        as [[ex3 | []] a]; simpl; intros H; inversion H. reflexivity.
Qed.

(** [S_] is what [Parameters_::set] made of it, on every path that
    throws. *)
Lemma set_status_throw_S d (n n' : IAF.iaf_chs_2007 Archiving) ex :
  set_status d n = (inl ex, n') -> IAF.S_ n' = S_after_ptmp_set d n.
Proof.
  unfold IAF.set_status, bind, gets, modify, IAF.ptmp_set, IAF.stmp_set,
    IAF.parent_set_status. simpl.
  destruct (Parameters_set d (IAF.P_ n, IAF.S_ n)) as [[ex1 | []] [ptmp s1]];
    simpl.
  - intros H. inversion H. reflexivity.
  - destruct (State_set d s1) as [[ex2 | []] stmp]; simpl.
    + intros H. inversion H. reflexivity.
    + destruct (Archiving_Node_set_status d (IAF.parent n))
        as [[ex3 | []] a]; simpl; intros H; inversion H. reflexivity.
Qed.

(** A call that returns has replaced both: [P_] by the copy that
    [Parameters_::set] worked on, [S_] by the copy that [State_::set]
    worked on, a copy taken after [Parameters_::set] had run. *)
Lemma set_status_return d (n n' : IAF.iaf_chs_2007 Archiving) :
  set_status d n = (inr tt, n') ->
  IAF.P_ n' = fst (snd (Parameters_set d (IAF.P_ n, IAF.S_ n))) /\
  IAF.S_ n' = snd (State_set d (S_after_ptmp_set d n)).
Proof.
  unfold IAF.set_status, bind, gets, modify, IAF.ptmp_set, IAF.stmp_set,
    IAF.parent_set_status. simpl.
  destruct (Parameters_set d (IAF.P_ n, IAF.S_ n)) as [[ex1 | []] [ptmp s1]];
    simpl.
  - intros H. inversion H.
  - destruct (State_set d s1) as [[ex2 | []] stmp]; simpl.
    + intros H. inversion H.
    + destruct (Archiving_Node_set_status d (IAF.parent n))
        as [[ex3 | []] a]; simpl; intros H; inversion H. auto.
Qed.

End SetStatusProperties.

(** C6, at a dictionary that is rejected.  The neuron has used three of
    its five noise values.  The dictionary brings a new noise signal and a
    [tau_minus] of -1.  [set_status] throws [BadProperty], [P_] is as
    before, old noise signal included, and [S_] is not: its cursor is back
    at 0. *)
Theorem set_status_rejected_resets_cursor :
  let result :=
    IAF.set_status Status.Parameters_set Status.State_set
      Status.Archiving_Node_set_status Examples.d_rejected Examples.n3 in
  fst result = inl (BadProperty "tau_minus must be strictly positive.") /\
  IAF.P_ (snd result) = IAF.P_ Examples.n3 /\
  IAF.noise_ (IAF.P_ (snd result)) = [0.3; -0.2; 0.1; 0.4; -0.5] /\
  IAF.parent (snd result) = IAF.parent Examples.n3 /\
  IAF.position_ (IAF.S_ Examples.n3) = 3%N /\
  IAF.position_ (IAF.S_ (snd result)) = 0%N /\
  IAF.S_ (snd result) <> IAF.S_ Examples.n3.
Proof.
  assert (Hp : Status.Parameters_set Examples.d_rejected
                 (Examples.p5, Examples.s3)
               = (inr tt,
                  ({| IAF.tau_epsp_ := 8.5; IAF.tau_reset_ := 15.4;
                      IAF.E_L_ := 0; IAF.U_th_ := 1; IAF.U_epsp_ := 0.77;
                      IAF.U_reset_ := 2.31; IAF.C_ := 1; IAF.U_noise_ := 0.1;
                      IAF.noise_ := [0.5; 0.5] |},
                   Examples.s0))).
  { unfold Status.Parameters_set. simpl.
    destruct (Rle_dec 8.5 0) as [H | _]; [lra |].
    destruct (Rle_dec 15.4 0) as [H | _]; [lra |].
    reflexivity. }
  assert (Ha : Status.Archiving_Node_set_status Examples.d_rejected 20
               = (inl (BadProperty "tau_minus must be strictly positive."), 20)).
  { unfold Status.Archiving_Node_set_status. simpl.
    destruct (Rle_dec (-1) 0) as [_ | H]; [reflexivity | lra]. }
  assert (Hres : IAF.set_status Status.Parameters_set Status.State_set
                   Status.Archiving_Node_set_status Examples.d_rejected
                   Examples.n3
                 = (inl (BadProperty "tau_minus must be strictly positive."),
                    IAF.set_S_ R Examples.s0 Examples.n3)).
  { unfold IAF.set_status, bind, gets, IAF.ptmp_set, IAF.stmp_set,
      IAF.parent_set_status. simpl.
    fold Examples.p5 Examples.s3. rewrite Hp. simpl. rewrite Ha. reflexivity. }
  intros result. unfold result. rewrite Hres. simpl.
  repeat split. discriminate.
Qed.

(* ================================================================= *)
(** * Further properties of the synapse *)

(** ** Depression and facilitation as maps on the weight *)


(** X1.  [depress_] never raises a weight that is not negative: when
    [lambda * alpha * kminus] is not negative either, the result lies
    between 0 and the weight. *)
Theorem depress_never_raises (w kminus : R) (cp : STDPPLHomCommonProperties) :
  0 <= w -> 0 <= lambda_ cp * alpha_ cp * kminus ->
  0 <= depress_ w kminus cp <= w.
Proof.
  intros Hw Hk. unfold depress_.
  destruct (Rgt_dec _ 0) as [Hgt | Hngt]; nra.
Qed.

Lemma depress_never_raises_witness :
  0 <= depress_ 3 2 MoreExamples.cp_strong <= 3.
Proof.
  apply (depress_never_raises 3 2 MoreExamples.cp_strong).
  - lra.
  - simpl. lra.
Defined.

Section Replay.

Variable get_ms : Z -> R.





Lemma loop_times_only t_lastspike dendritic_delay cp history1 history2 st :
  map t_ history1 = map t_ history2 ->
  fold_left (loop_body t_lastspike dendritic_delay cp) history1 st =
  fold_left (loop_body t_lastspike dendritic_delay cp) history2 st.
Proof.
  revert history2 st.
  induction history1 as [| h1 rest1 IH]; intros [| h2 rest2] st Hmap;
    simpl in *; try discriminate; [reflexivity |].
  injection Hmap as Ht Hrest.
  assert (Hb : loop_body t_lastspike dendritic_delay cp st h1 =
               loop_body t_lastspike dendritic_delay cp st h2).
  { unfold loop_body. now rewrite Ht. }
  rewrite Hb. now apply IH.
Qed.

(** X5.  [send] reads of the target only the times of the spikes in the
    queried history and the one trace value at [t_spike] less the delay:
    two targets that agree on these give the same connection, the same
    event and the same log, whatever trace values their history entries
    carry. *)
Theorem send_reads_times_only nodes1 nodes2 e t_lastspike cp c :
  let t1 := t_lastspike - get_ms (delay_ c) in
  let t2 := stamp_ms e - get_ms (delay_ c) in
  map t_ (get_history (nodes1 (target_ c)) t1 t2) =
  map t_ (get_history (nodes2 (target_ c)) t1 t2) ->
  get_K_value (nodes1 (target_ c)) t2 = get_K_value (nodes2 (target_ c)) t2 ->
  send get_ms nodes1 e t_lastspike cp c = send get_ms nodes2 e t_lastspike cp c.
Proof.
  intros t1 t2 Hh Hk.
  assert (Hr : replay get_ms nodes1 e t_lastspike cp c =
               replay get_ms nodes2 e t_lastspike cp c).
  { unfold replay. now apply loop_times_only. }
  unfold send. fold t2. now rewrite Hr, Hk.
Qed.

Lemma send_frame nodes e t_lastspike cp c :
  target_ (conn (send get_ms nodes e t_lastspike cp c)) = target_ c /\
  delay_ (conn (send get_ms nodes e t_lastspike cp c)) = delay_ c /\
  rport_ (conn (send get_ms nodes e t_lastspike cp c)) = rport_ c.
Proof.
  destruct (replay_frame get_ms nodes e t_lastspike cp c) as (Ht & Hd & Hr & _).
  unfold send. simpl. auto.
Qed.

(** X6.  No number of [send] calls changes the target, the delay or the
    port of a connection; and each call hands on the stamp and the sender
    of the event as it found them. *)
Theorem send_all_frame (calls : list call) (c : STDPPLConnectionHom) :
  target_ (send_all get_ms calls c) = target_ c /\
  delay_ (send_all get_ms calls c) = delay_ c /\
  rport_ (send_all get_ms calls c) = rport_ c /\
  (forall nodes e t_lastspike cp,
     stamp_ms (event (send get_ms nodes e t_lastspike cp c)) = stamp_ms e /\
     sender (event (send get_ms nodes e t_lastspike cp c)) = sender e).
Proof.
  split; [| split; [| split]]; try (intros; split; reflexivity);
    unfold send_all; revert c;
    (induction calls as [| k rest IH]; intros c; simpl; [reflexivity |]);
    rewrite IH; unfold send_call;
    destruct (send_frame (c_nodes k) (c_event k) (c_t_lastspike k) (c_cp k) c)
      as (Ht & Hd & Hr); assumption.
Qed.

End Replay.



Lemma send_reads_times_only_witness :
  send Examples.get_ms Examples.spiking Examples.e12 10 Examples.cp1
    Examples.c0 =
  send Examples.get_ms MoreExamples.spiking' Examples.e12 10 Examples.cp1
    Examples.c0.
Proof.
  apply (send_reads_times_only Examples.get_ms Examples.spiking
           MoreExamples.spiking' Examples.e12 10 Examples.cp1 Examples.c0);
    reflexivity.
Defined.

(** ** The trace over a spike train *)

Section Trace.

Variable get_ms : Z -> R.

Lemma last_stamp_cons t0 k rest :
  Series.last_stamp t0 (k :: rest) =
  Series.last_stamp (stamp_ms (c_event k)) rest.
Proof. reflexivity. Qed.

(** X7.  Over a sequence of calls that a connector chains (each call gets
    the stamp of the event before it as [t_lastspike]) with one time
    constant [tau], the trace ends as what is left of the old trace after
    the time from [t0] to the last spike, plus the sum over all delivered
    spikes of [exp ((t_i - t_n) / tau)], the last spike counting 1. *)
Theorem trace_closed_form (calls : list call) (c : STDPPLConnectionHom)
    (t0 tau : R) :
  Series.chained t0 tau calls ->
  let t_n := Series.last_stamp t0 calls in
  Kplus_ (send_all get_ms calls c) =
    Kplus_ c * exp ((t0 - t_n) / tau)
    + Series.decayed_sum tau t_n (map (fun k => stamp_ms (c_event k)) calls).
Proof.
  revert c t0. induction calls as [| k rest IH]; intros c t0 Hch.
  - cbn. replace ((t0 - t0) / tau) with 0 by (unfold Rdiv; ring).
    rewrite exp_0. lra.
  - destruct Hch as (Hlast & Htau & Hrest).
    cbv zeta. rewrite last_stamp_cons.
    change (send_all get_ms (k :: rest) c)
      with (send_all get_ms rest (send_call get_ms c k)).
    specialize (IH (send_call get_ms c k) _ Hrest). cbv zeta in IH.
    rewrite IH. cbn [map Series.decayed_sum].
    set (t1 := stamp_ms (c_event k)).
    set (t_n := Series.last_stamp t1 rest).
    unfold send_call. rewrite send_Kplus_eq, Hlast, Htau. fold t1.
    rewrite Rmult_plus_distr_r, Rmult_assoc, <- exp_plus.
    replace ((t0 - t1) / tau + (t1 - t_n) / tau) with ((t0 - t_n) / tau)
      by (unfold Rdiv; ring).
    lra.
Qed.

Lemma send_Kplus_bounds nodes e t_lastspike cp c :
  0 < tau_plus_ cp -> t_lastspike <= stamp_ms e -> 0 <= Kplus_ c ->
  1 <= Kplus_ (conn (send get_ms nodes e t_lastspike cp c)) <= Kplus_ c + 1.
Proof.
  intros Htau Ht Hk. rewrite send_Kplus_eq.
  set (x := (t_lastspike - stamp_ms e) / tau_plus_ cp).
  assert (Hx : x <= 0).
  { unfold x, Rdiv. pose proof (Rinv_0_lt_compat _ Htau). nra. }
  assert (He : 0 < exp x <= 1).
  { split; [apply exp_pos |].
    destruct Hx as [Hlt | Heq].
    - left. rewrite <- exp_0. now apply exp_increasing.
    - rewrite Heq, exp_0. lra. }
  nra.
Qed.

(** X8.  When time constants are positive and no event is stamped before
    the one that preceded it, a trace that is not negative lies, after a
    [send], between 1 and its old value plus 1; after any number of calls
    it is at most the old value plus the number of calls.  When the event
    carries the stamp of the previous spike the trace grows by exactly
    1. *)
Theorem trace_bounded_by_spike_count (calls : list call)
    (c : STDPPLConnectionHom) :
  0 <= Kplus_ c ->
  Forall Series.causal calls ->
  0 <= Kplus_ (send_all get_ms calls c) <= Kplus_ c + INR (length calls) /\
  (forall nodes e t_lastspike cp,
     0 < tau_plus_ cp -> t_lastspike <= stamp_ms e ->
     1 <= Kplus_ (conn (send get_ms nodes e t_lastspike cp c))
       <= Kplus_ c + 1) /\
  (forall nodes e cp,
     Kplus_ (conn (send get_ms nodes e (stamp_ms e) cp c)) = Kplus_ c + 1).
Proof.
  intros Hk Hcalls. split; [| split].
  - unfold send_all. revert c Hk.
    induction Hcalls as [| k rest [Htau Ht] _ IH]; intros c Hk.
    + simpl. lra.
    + cbn [fold_left length]. rewrite S_INR.
      pose proof (send_Kplus_bounds (c_nodes k) (c_event k) (c_t_lastspike k)
                    (c_cp k) c Htau Ht Hk) as Hb.
      fold (send_call get_ms c k) in Hb.
      assert (Hk1 : 0 <= Kplus_ (send_call get_ms c k)) by lra.
      specialize (IH (send_call get_ms c k) Hk1). lra.
  - intros nodes e t_lastspike cp Htau Ht. now apply send_Kplus_bounds.
  - intros nodes e cp. rewrite send_Kplus_eq.
    replace ((stamp_ms e - stamp_ms e) / tau_plus_ cp) with 0
      by (unfold Rdiv; ring).
    rewrite exp_0. lra.
Qed.

End Trace.

Lemma trace_closed_form_witness :
  Kplus_ (send_all Examples.get_ms MoreExamples.train Examples.c0) =
  Kplus_ Examples.c0 * exp ((10 - 15) / 20)
  + Series.decayed_sum 20 15 [12; 15].
Proof.
  apply (trace_closed_form Examples.get_ms MoreExamples.train Examples.c0
           10 20).
  simpl. auto.
Defined.

Lemma trace_bounded_by_spike_count_witness :
  0 <= Kplus_ (send_all Examples.get_ms MoreExamples.train Examples.c0)
    <= Kplus_ Examples.c0 + INR 2.
Proof.
  apply (trace_bounded_by_spike_count Examples.get_ms MoreExamples.train
           Examples.c0).
  - simpl. lra.
  - repeat constructor; simpl; lra.
Defined.

(** ** Special learning rules *)

Section Rules.

Variable get_ms : Z -> R.



End Rules.


(** ** [depress_] on doubles *)

Section Doubles.

Open Scope float_scope.

Lemma ltb_leb (x y : float) : (x <? y) = true -> (x <=? y) = true.
Proof.
  rewrite ltb_spec, leb_spec. unfold SFltb, SFleb.
  destruct (SFcompare _ _) as [[| |] |]; congruence.
Qed.

Lemma SFcompare_refl (x : spec_float) :
  x <> S754_nan -> SFcompare x x = Some Eq.
Proof.
  destruct x as [s | s | | s m e]; simpl; intros H.
  - reflexivity.
  - destruct s; reflexivity.
  - now elim H.
  - destruct s; rewrite Z.compare_refl, Pos.compare_cont_refl; reflexivity.
Qed.

Lemma ltb_not_nan (x y : float) : (x <? y) = true -> is_nan y = false.
Proof.
  unfold is_nan. rewrite ltb_spec, eqb_spec. unfold SFltb, SFeqb.
  intros H. rewrite SFcompare_refl; [reflexivity |].
  intros E. rewrite E in H. destruct (Prim2SF x); discriminate.
Qed.

(** X12.  On binary64 doubles [depress_] returns, for every learning rate,
    asymmetry, weight and trace value, NaN and the infinities included, a
    double that is not NaN and not below 0: the comparison [new_w > 0.0]
    fails for a NaN, and the result is then 0. *)
Theorem depress_double_sane (lambda_ alpha_ w kminus : float) :
  (0 <=? Binary64.depress_ lambda_ alpha_ w kminus) = true /\
  is_nan (Binary64.depress_ lambda_ alpha_ w kminus) = false /\
  ((0 <? w - lambda_ * alpha_ * w * kminus) = false ->
   Binary64.depress_ lambda_ alpha_ w kminus = 0).
Proof.
  unfold Binary64.depress_. cbv zeta.
  destruct (0 <? _) eqn:E.
  - split; [now apply ltb_leb |]. split; [now apply (ltb_not_nan 0) |].
    discriminate.
  - repeat split.
Qed.

End Doubles.

(* ================================================================= *)
(** * Further properties of the set-up and of [set_status] *)

Section Registration.

Variable get_ms : Z -> R.
Variable Archiving : Type.
Variable base :
  IAF.iaf_chs_2007 Archiving -> node_ref -> IAF.iaf_chs_2007 Archiving ->
  Z -> R -> Exc STDPPLConnectionHom unit.

(** X13.  Whatever the base class' [check_connection] does, the synapse's
    [check_connection] ends as it ends and leaves the connection as it
    leaves it.  When it throws, nothing is registered with the archiver of
    the receiver; when it returns, exactly one time is registered:
    [t_lastspike] less the delay that the connection has after the base
    class' check. *)
Theorem check_connection_registers (s r : IAF.iaf_chs_2007 Archiving)
    (r_ref : node_ref) (receptor_type : Z) (t_lastspike : R)
    (st : Setup.setup) :
  let checked := base s r_ref r receptor_type t_lastspike (Setup.connection st) in
  let result := Setup.check_connection get_ms Archiving base s r_ref r
                  receptor_type t_lastspike st in
  fst result = fst checked /\
  Setup.connection (snd result) = snd checked /\
  (forall ex, fst checked = inl ex ->
     Setup.registered (snd result) = Setup.registered st) /\
  (fst checked = inr tt ->
     Setup.registered (snd result) =
       (t_lastspike - get_ms (delay_ (snd checked))) :: Setup.registered st).
Proof.
  intros checked result. unfold result, Setup.check_connection,
    Setup.base_check_connection, Setup.register_stdp_connection,
    bind, gets, modify.
  fold checked. destruct checked as [[ex | []] c']; simpl.
  - repeat split; intros; try reflexivity; discriminate.
  - repeat split; intros; try reflexivity; discriminate.
Qed.

End Registration.

Lemma check_connection_registers_witness :
  Setup.registered
    (snd (Setup.check_connection Examples.get_ms R
            Setup.ConnectionHetWD_check_connection Examples.n3 7%nat
            Examples.n3 5 10
            {| Setup.connection := Examples.c1; Setup.registered := [] |}))
  = [].
Proof.
  pose proof (check_connection_registers Examples.get_ms R
                Setup.ConnectionHetWD_check_connection Examples.n3 Examples.n3
                7%nat 5 10
                {| Setup.connection := Examples.c1; Setup.registered := [] |})
    as (_ & _ & Hthrow & _).
  apply (Hthrow (UnknownReceptorType 5 "iaf_chs_2007")). reflexivity.
Defined.

Section SetStatusOutcome.

Variables (Archiving DictionaryDatum : Type).
Variable Parameters_set :
  DictionaryDatum -> Exc (IAF.Parameters_ * IAF.State_) unit.
Variable State_set : DictionaryDatum -> Exc IAF.State_ unit.
Variable Archiving_Node_set_status : DictionaryDatum -> Exc Archiving unit.

Local Abbreviation set_status :=
  (IAF.set_status Parameters_set State_set Archiving_Node_set_status).

(** X14.  When [Parameters_::set] leaves the state it is handed as it
    was (as it must when it has no reason to move the cursor), a
    [set_status] that throws has changed nothing of the neuron's own:
    [P_], [S_], [V_] and the name are as before. *)
Theorem set_status_atomic_when d (n n' : IAF.iaf_chs_2007 Archiving) ex :
  snd (snd (Parameters_set d (IAF.P_ n, IAF.S_ n))) = IAF.S_ n ->
  set_status d n = (inl ex, n') ->
  IAF.P_ n' = IAF.P_ n /\ IAF.S_ n' = IAF.S_ n /\
  IAF.V_ n' = IAF.V_ n /\ IAF.get_name n' = IAF.get_name n.
Proof.
  unfold IAF.set_status, bind, gets, modify, IAF.ptmp_set, IAF.stmp_set,
    IAF.parent_set_status. simpl.
  destruct (Parameters_set d (IAF.P_ n, IAF.S_ n)) as [[ex1 | []] [ptmp s1]];
    simpl; intros Hs; subst s1.
  - intros H. inversion H. simpl. auto.
  - destruct (State_set d (IAF.S_ n)) as [[ex2 | []] stmp]; simpl.
    + intros H. inversion H. simpl. auto.
    + destruct (Archiving_Node_set_status d (IAF.parent n))
        as [[ex3 | []] a]; simpl; intros H; inversion H. simpl. auto.
Qed.

(** X15.  [set_status] returns exactly when all three setters return.
    Returning, it has put in place the parameters that [Parameters_::set]
    worked on, the state that [State_::set] worked on, and what the parent
    class made of its members.  The parent class is asked last: when one
    of the two setters before it throws, its members are as they were.
    [V_] and the name are never written. *)
Theorem set_status_outcome d (n : IAF.iaf_chs_2007 Archiving) :
  let pr := Parameters_set d (IAF.P_ n, IAF.S_ n) in
  let sr := State_set d (snd (snd pr)) in
  let ar := Archiving_Node_set_status d (IAF.parent n) in
  let result := set_status d n in
  (fst result = inr tt <->
   fst pr = inr tt /\ fst sr = inr tt /\ fst ar = inr tt) /\
  (fst result = inr tt ->
   IAF.P_ (snd result) = fst (snd pr) /\
   IAF.S_ (snd result) = snd sr /\
   IAF.parent (snd result) = snd ar) /\
  ((exists ex, fst pr = inl ex) \/
   (fst pr = inr tt /\ exists ex, fst sr = inl ex) ->
   IAF.parent (snd result) = IAF.parent n) /\
  IAF.V_ (snd result) = IAF.V_ n /\
  IAF.get_name (snd result) = IAF.get_name n.
Proof.
  intros pr sr ar result.
  unfold result, IAF.set_status, bind, gets, modify, IAF.ptmp_set,
    IAF.stmp_set, IAF.parent_set_status. simpl.
  unfold sr. clear sr. fold pr. destruct pr as [[ex1 | []] [ptmp s1]]; simpl.
  - split; [split; [discriminate | intros [H _]; discriminate] |].
    split; [discriminate |]. auto.
  - destruct (State_set d s1) as [[ex2 | []] stmp]; simpl.
    + split; [split; [discriminate | intros (_ & H & _); discriminate] |].
      split; [discriminate |]. auto.
    + fold ar. destruct ar as [[ex3 | []] a]; simpl.
      * split; [split; [discriminate | intros (_ & _ & H); discriminate] |].
        split; [discriminate |].
        split; [| auto].
        intros [[ex H] | [_ [ex H]]]; discriminate.
      * split; [split; auto |]. split; [auto |].
        split; [| auto].
        intros [[ex H] | [_ [ex H]]]; discriminate.
Qed.

End SetStatusOutcome.

Lemma set_status_atomic_when_witness :
  let result :=
    IAF.set_status Status.Parameters_set Status.State_set
      Status.Archiving_Node_set_status MoreExamples.d_bad_tau Examples.n3 in
  IAF.P_ (snd result) = IAF.P_ Examples.n3 /\
  IAF.S_ (snd result) = IAF.S_ Examples.n3.
Proof.
  assert (Hp : exists p',
             Status.Parameters_set MoreExamples.d_bad_tau
               (Examples.p5, Examples.s3)
             = (inl (BadProperty "All time constants must be strictly positive."),
                (p', Examples.s3))).
  { unfold Status.Parameters_set. simpl.
    destruct (Rle_dec (-3) 0) as [_ | H]; [| lra]. eexists. reflexivity. }
  destruct Hp as [p' Hp].
  assert (Hres : IAF.set_status Status.Parameters_set Status.State_set
                   Status.Archiving_Node_set_status MoreExamples.d_bad_tau
                   Examples.n3
                 = (inl (BadProperty "All time constants must be strictly positive."),
                    IAF.set_S_ R Examples.s3 Examples.n3)).
  { unfold IAF.set_status, bind, gets, IAF.ptmp_set. simpl.
    fold Examples.p5 Examples.s3. rewrite Hp. reflexivity. }
  intros result.
  destruct (set_status_atomic_when R Status.Dictionary Status.Parameters_set
              Status.State_set Status.Archiving_Node_set_status
              MoreExamples.d_bad_tau Examples.n3 (snd result)
              (BadProperty "All time constants must be strictly positive."))
    as (HP & HS & _).
  - simpl. fold Examples.p5 Examples.s3. rewrite Hp. reflexivity.
  - unfold result. rewrite Hres. reflexivity.
  - split; assumption.
Defined.

Lemma set_status_outcome_witness :
  IAF.parent
    (snd (IAF.set_status Status.Parameters_set Status.State_set
            Status.Archiving_Node_set_status MoreExamples.d_bad_tau
            Examples.n3))
  = IAF.parent Examples.n3.
Proof.
  apply (set_status_outcome R Status.Dictionary Status.Parameters_set
           Status.State_set Status.Archiving_Node_set_status
           MoreExamples.d_bad_tau Examples.n3).
  left. simpl. unfold Status.Parameters_set. simpl.
  destruct (Rle_dec (-3) 0) as [_ | H]; [| lra]. eexists. reflexivity.
Defined.

Section LoggingRequests.

Variables (Archiving Logger DataLoggingRequest : Type).
Variable connect_logging_device : DataLoggingRequest -> Exc Logger Z.

(** X16.  A data logging request is turned away for the same receptors,
    with the same exception, as a spike: for every receptor other than 0,
    and then the logger is not touched.  For receptor 0 the answer, and
    what happens to the logger, are those of the logger's own
    [connect_logging_device]. *)
Theorem connect_sender_logging (n : IAF.iaf_chs_2007 Archiving)
    (dlr : DataLoggingRequest) (receptor_type : Z) (logger : Logger) :
  let result :=
    Logging.connect_sender Archiving Logger DataLoggingRequest
      connect_logging_device n dlr receptor_type logger in
  (receptor_type <> 0%Z ->
     result = (inl (UnknownReceptorType receptor_type (IAF.get_name n)), logger) /\
     IAF.connect_sender n receptor_type = fst result) /\
  (receptor_type = 0%Z -> result = connect_logging_device dlr logger) /\
  ((exists ex, IAF.connect_sender n receptor_type = inl ex) <->
   receptor_type <> 0%Z).
Proof.
  intros result. unfold result, Logging.connect_sender.
  split; [| split].
  - intros H. rewrite (connect_sender_other Archiving n receptor_type H).
    destruct (Z.eqb_spec receptor_type 0) as [E | _]; [contradiction |].
    split; reflexivity.
  - intros ->. reflexivity.
  - split.
    + intros [ex H] E. subst. discriminate.
    + intros H. eexists. now apply connect_sender_other.
Qed.

End LoggingRequests.

Lemma connect_sender_logging_witness :
  Logging.connect_sender R (list Z) unit
    (fun _ => ret 1%Z) Examples.n3 tt 4 [] =
  (inl (UnknownReceptorType 4 "iaf_chs_2007"), []).
Proof.
  apply (connect_sender_logging R (list Z) unit (fun _ => ret 1%Z)
           Examples.n3 tt 4 []).
  discriminate.
Defined.

Lemma depress_double_sane_witness :
  Binary64.depress_ Binary64.d0_1 1 PrimFloat.nan 2 = 0%float.
Proof.
  apply (depress_double_sane Binary64.d0_1 1 PrimFloat.nan 2).
  reflexivity.
Defined.

(* ================================================================= *)
(** * The loop of [send] on doubles *)

Section DoubleLoop.

Variable std_exp : float -> float.
Variable std_pow : float -> float -> float.
Variable get_ms : Z -> float.

Local Open Scope float_scope.

Local Abbreviation loop_body64 := (Double.loop_body std_exp std_pow).
Local Abbreviation replay64 := (Double.replay std_exp std_pow get_ms).
Local Abbreviation send64 := (Double.send std_exp std_pow get_ms).

Lemma double_loop_body_skip t_lastspike dendritic_delay cp st h :
  (Double.minus_dt_of t_lastspike dendritic_delay h =? 0) = true ->
  loop_body64 t_lastspike dendritic_delay cp st h = st.
Proof.
  unfold Double.loop_body, Double.minus_dt_of. intros E. now rewrite E.
Qed.

Lemma double_loop_body_pair t_lastspike dendritic_delay cp st h :
  (Double.minus_dt_of t_lastspike dendritic_delay h =? 0) = false ->
  loop_body64 t_lastspike dendritic_delay cp st h =
    (Double.set_weight_ (fst st)
       (Double.facilitate_ std_pow (Double.weight_ (fst st))
          (Double.Kplus_ (fst st)
           * std_exp (Double.minus_dt_of t_lastspike dendritic_delay h
                      / Double.tau_plus_ cp)) cp),
     snd st ++ [Double.Facilitate
       (Double.facilitate_ std_pow (Double.weight_ (fst st))
          (Double.Kplus_ (fst st)
           * std_exp (Double.minus_dt_of t_lastspike dendritic_delay h
                      / Double.tau_plus_ cp)) cp)]).
Proof.
  unfold Double.loop_body, Double.minus_dt_of. intros E. now rewrite E.
Qed.

Lemma double_loop_Kplus t_lastspike dendritic_delay cp history st :
  Double.Kplus_
    (fst (fold_left (loop_body64 t_lastspike dendritic_delay cp) history st))
  = Double.Kplus_ (fst st).
Proof.
  revert st. induction history as [| h rest IH]; intros st; simpl.
  - reflexivity.
  - rewrite IH.
    destruct (Double.minus_dt_of t_lastspike dendritic_delay h =? 0) eqn:E.
    + now rewrite (double_loop_body_skip _ _ _ _ _ E).
    + now rewrite (double_loop_body_pair _ _ _ _ _ E).
Qed.

Lemma double_loop_log t_lastspike dendritic_delay cp history st :
  length (snd (fold_left (loop_body64 t_lastspike dendritic_delay cp)
                 history st)) =
  (length (snd st)
   + length (filter (Double.paired t_lastspike dendritic_delay) history))%nat.
Proof.
  revert st. induction history as [| h rest IH]; intros st; simpl.
  - lia.
  - rewrite IH. unfold Double.paired at 2.
    destruct (Double.minus_dt_of t_lastspike dendritic_delay h =? 0) eqn:E.
    + rewrite (double_loop_body_skip _ _ _ _ _ E). reflexivity.
    + rewrite (double_loop_body_pair _ _ _ _ _ E). simpl.
      rewrite length_app. simpl. lia.
Qed.

Lemma double_loop_zero_lag t_lastspike dendritic_delay cp history st :
  (forall h, In h history ->
     (Double.minus_dt_of t_lastspike dendritic_delay h =? 0) = true) ->
  fold_left (loop_body64 t_lastspike dendritic_delay cp) history st = st.
Proof.
  revert st. induction history as [| h rest IH]; intros st H; simpl.
  - reflexivity.
  - rewrite double_loop_body_skip by (apply H; now left).
    apply IH. intros h' Hin. apply H. now right.
Qed.

(** C3.  On doubles, as the code computes.  Let the history that [send]
    queries be [pre ++ h :: post] and let [Delta_t] be the double
    [t_lastspike - (h.t_ + dendritic_delay)].  The turn of the loop for
    [h] changes nothing, neither the connection nor the log, exactly when
    [Delta_t == 0] holds for the doubles.  For every other entry the turn
    sets the weight to
    [w + lambda * pow(w, mu) * (Kplus * exp(Delta_t / tau_plus))], each
    operation rounded as written, where [w] is the weight after the
    entries before [h] and [Kplus] the trace at the call, and logs that one
    write.  The loop goes on with [post] from there, and in all it makes as
    many writes as there are entries that fail the test.  The test has no
    tolerance: [0.5 - (0.1 + 0.4)] is 0 and that entry is skipped, while
    [0.3 - (0.1 + 0.2)] is not 0 (it is [-2^-54]) and that entry is
    paired. *)
Theorem replay_pairing_double nodes e t_lastspike cp c pre h post :
  let dendritic_delay := get_ms (Double.delay_ c) in
  Double.get_history (nodes (Double.target_ c))
    (t_lastspike - dendritic_delay)
    (Double.stamp_ms e - dendritic_delay) = pre ++ h :: post ->
  let body := loop_body64 t_lastspike dendritic_delay cp in
  let before := fold_left body pre (c, []) in
  let after := fold_left body (pre ++ [h]) (c, []) in
  let Delta_t := t_lastspike - (Double.t_ h + dendritic_delay) in
  let w := Double.weight_ (fst before) in
  (after = before <-> (Delta_t =? 0) = true) /\
  ((Delta_t =? 0) = false ->
     Double.weight_ (fst after) =
       w + Double.lambda_ cp * std_pow w (Double.mu_ cp)
           * (Double.Kplus_ c * std_exp (Delta_t / Double.tau_plus_ cp)) /\
     snd after = snd before ++ [Double.Facilitate (Double.weight_ (fst after))]) /\
  replay64 nodes e t_lastspike cp c = fold_left body post after /\
  length (snd (replay64 nodes e t_lastspike cp c)) =
    length (filter (Double.paired t_lastspike dendritic_delay)
              (pre ++ h :: post)) /\
  (Double.d0_5 - (Binary64.d0_1 + Double.d0_4) =? 0) = true /\
  (Double.d0_3 - (Binary64.d0_1 + Double.d0_2) =? 0) = false.
Proof.
  intros dendritic_delay Hhist body before after Delta_t w.
  assert (Hafter : after = body before h).
  { unfold after, before. now rewrite fold_left_app. }
  assert (Hk : Double.Kplus_ (fst before) = Double.Kplus_ c).
  { unfold before, body. apply double_loop_Kplus. }
  assert (Hpair : (Delta_t =? 0) = false ->
     Double.weight_ (fst after) =
       w + Double.lambda_ cp * std_pow w (Double.mu_ cp)
           * (Double.Kplus_ c * std_exp (Delta_t / Double.tau_plus_ cp)) /\
     snd after = snd before ++ [Double.Facilitate (Double.weight_ (fst after))]).
  { intros E. rewrite Hafter. unfold body.
    rewrite (double_loop_body_pair _ _ _ _ _ E). simpl.
    unfold Double.facilitate_, Double.minus_dt_of.
    fold Delta_t. fold w. rewrite Hk. split; reflexivity. }
  split; [| split; [exact Hpair | split; [| split; [| split]]]].
  - split.
    + intros Heq. destruct (Delta_t =? 0) eqn:E; [reflexivity |].
      destruct (Hpair eq_refl) as [_ Hlog]. rewrite Heq in Hlog.
      apply (f_equal (@length _)) in Hlog.
      rewrite length_app in Hlog. simpl in Hlog. lia.
    + intros E. rewrite Hafter. now apply double_loop_body_skip.
  - unfold Double.replay. fold dendritic_delay. rewrite Hhist.
    unfold after. rewrite <- fold_left_app, <- app_assoc. reflexivity.
  - unfold Double.replay. fold dendritic_delay. rewrite Hhist.
    now rewrite double_loop_log.
  - reflexivity.
  - reflexivity.
Qed.

(** X4.  On doubles: when every entry of the queried history has a lag
    that the test [minus_dt == 0] takes for 0, and so when the history is
    empty, the loop of [send] does nothing.  The log of the call is then
    the depression, the delivery and the trace update, and the weight is
    the depression of the old weight. *)
Theorem send_depression_only_double nodes e t_lastspike cp c :
  let dendritic_delay := get_ms (Double.delay_ c) in
  (forall h,
     In h (Double.get_history (nodes (Double.target_ c))
             (t_lastspike - dendritic_delay)
             (Double.stamp_ms e - dendritic_delay)) ->
     (t_lastspike - (Double.t_ h + dendritic_delay) =? 0) = true) ->
  let s := send64 nodes e t_lastspike cp c in
  replay64 nodes e t_lastspike cp c = (c, []) /\
  Double.weight_ (Double.conn s) =
    Binary64.depress_ (Double.lambda_ cp) (Double.alpha_ cp)
      (Double.weight_ c)
      (Double.get_K_value (nodes (Double.target_ c))
         (Double.stamp_ms e - dendritic_delay)) /\
  Double.log s =
    [Double.Depress (Double.weight_ (Double.conn s));
     Double.Deliver (Double.event s);
     Double.UpdateKplus (Double.Kplus_ (Double.conn s))].
Proof.
  intros dendritic_delay H s.
  assert (Hr : replay64 nodes e t_lastspike cp c = (c, [])).
  { unfold Double.replay. now apply double_loop_zero_lag. }
  split; [exact Hr |]. split.
  - unfold s, Double.send. rewrite Hr. reflexivity.
  - unfold s, Double.send. rewrite Hr. reflexivity.
Qed.

End DoubleLoop.

(** The spike of [MoreExamples.boundary] lies in the queried range
    [(0.5 - 0.4, 1 - 0.4]], and its lag is 0. *)
Lemma boundary_entry_in_range :
  (Double.d0_5 - Double.d0_4 <? Binary64.d0_1)%float = true /\
  (Binary64.d0_1 <=? 1 - Double.d0_4)%float = true /\
  (Double.minus_dt_of Double.d0_5 Double.d0_4 MoreExamples.h0_1 =? 0)%float
  = true.
Proof. repeat split. Qed.

Lemma replay_pairing_double_witness :
  fold_left
    (Double.loop_body MoreExamples.uncalled_exp MoreExamples.uncalled_pow
       Double.d0_5 Double.d0_4 MoreExamples.cp64)
    [MoreExamples.h0_1] (MoreExamples.c64, [])
  = (MoreExamples.c64, []).
Proof.
  pose proof (replay_pairing_double MoreExamples.uncalled_exp
                MoreExamples.uncalled_pow MoreExamples.get_ms64
                MoreExamples.boundary MoreExamples.e1_64 Double.d0_5
                MoreExamples.cp64 MoreExamples.c64 [] MoreExamples.h0_1 []
                eq_refl) as ([_ Hskip] & _).
  apply Hskip. reflexivity.
Defined.

Lemma send_depression_only_double_witness :
  Double.replay MoreExamples.uncalled_exp MoreExamples.uncalled_pow
    MoreExamples.get_ms64 MoreExamples.boundary MoreExamples.e1_64
    Double.d0_5 MoreExamples.cp64 MoreExamples.c64
  = (MoreExamples.c64, []).
Proof.
  apply (send_depression_only_double MoreExamples.uncalled_exp
           MoreExamples.uncalled_pow MoreExamples.get_ms64
           MoreExamples.boundary MoreExamples.e1_64 Double.d0_5
           MoreExamples.cp64 MoreExamples.c64).
  intros h [H | []]. subst h. reflexivity.
Defined.
